(** * tailor: feature stage, local map ring, registration loop and odometry core

    A shallow embedding of [src/mapping.cpp] and [src/features.cpp].

    Conventions of the embedding.
    - [float] and [double] values are modelled by rationals ([Q]).  The code
      under study only compares them, takes absolute values and adds them;
      rounding and NaN are outside the model.
    - [size_t] indices are modelled by [nat]: every index the code computes is
      bounded by the ring capacity or by the length of a vector.
    - A C array [T a[20]] is a [list T] of length 20 (see [local_map.wf]);
      a [std::vector] is a [list].
    - [assert], an out-of-range subscript and a null dereference end the
      computation with a [fault]; everything else is a total function.
    - Headers that are not part of the two source files (Eigen, PCL, ROS,
      [comm.h], [residual.h], [loop.h]) are interfaces: type classes whose
      operations the code calls.
    - Console output ([printf], [ROS_INFO]) is modelled only in the two
      constructors, where the diagnostics are the whole point. *)

From Stdlib Require Import QArith Qabs Qround Lia String ZArith.
From stdpp Require Import base option list.

Local Open Scope nat_scope.

(** ** Faults and the error monad *)

Inductive fault : Type :=
| AssertFailed   (* an [assert] does not hold *)
| OutOfRange     (* subscript outside an array or vector: undefined in C++ *)
| NullDeref.     (* [->] on a null [Ptr]: undefined in C++ *)

Inductive res (A : Type) : Type :=
| Ok (a : A)
| Fault (f : fault).

Arguments Ok {A} a.
Arguments Fault {A} f.

#[global] Instance res_ret : MRet res := fun A a => Ok a.

#[global] Instance res_bind : MBind res :=
  fun A B f m => match m with Ok a => f a | Fault e => Fault e end.

(** ** Scalars *)

Definition Qltb (a b : Q) : bool := negb (Qle_bool b a).

(** ** Data model ([comm.h]) *)

(** [Transform]: the six pose parameters.  The fields are [x], [y], [z],
    [roll], [pitch], [yaw] in the source; they carry a [t] prefix here. *)
Record Transform : Type := mkTransform {
  tx : Q; ty : Q; tz : Q; troll : Q; tpitch : Q; tyaw : Q
}.

Definition Transform_zero : Transform := mkTransform 0 0 0 0 0 0.

Record PointType : Type := mkPoint {
  px : Q; py : Q; pz : Q; intensity : Q; ring : nat; time_offset : Q
}.

(** [pcl::PointCloud<PointType>]: the point vector and the [width] field the
    code maintains by hand. *)
Record PointCloud : Type := mkCloud {
  points : list PointType;
  width : nat
}.

Definition cloud_size (c : PointCloud) : nat := length (points c).
Definition cloud_empty (c : PointCloud) : bool := cloud_size c =? 0.

(** A [Ptr] is [None] when null.  Clouds are values: the model does not track
    sharing between the copies of a [Ptr]. *)
Record feature_objects : Type := mkObjects {
  line_features : option PointCloud;
  plane_features : option PointCloud;
  non_features : option PointCloud
}.

Record feature_frame : Type := mkFrame {
  velodyne_feature : feature_objects;
  livox_feature : feature_objects
}.

Definition null_objects : feature_objects := mkObjects None None None.
Definition null_frame : feature_frame := mkFrame null_objects null_objects.

Definition Quaternion : Type := (Q * Q * Q * Q)%type.
Definition Vector3 : Type := (Q * Q * Q)%type.

(** The part of Eigen the code uses on [Matrix4d]. *)
Class Eigen : Type := {
  Matrix4d : Type;
  Identity : Matrix4d;
  mat_mul : Matrix4d -> Matrix4d -> Matrix4d;
  mat_inverse : Matrix4d -> Matrix4d;
  (* [m(i, j)] *)
  mat_coeff : Matrix4d -> nat -> nat -> Q;
  (* [m * Vector4d(x, y, z, 1)], first three coordinates *)
  mat_apply : Matrix4d -> Vector3 -> Vector3;
  (* [Quaterniond(m.block<3, 3>(0, 0))] as (x, y, z, w) *)
  mat_quaternion : Matrix4d -> Quaternion
}.

(** Helpers declared in [comm.h]. *)
Class Comm `{Eigen} : Type := {
  to_eigen : Transform -> Matrix4d;
  (* [concat(dst, src)]: the new value of [dst] *)
  concat : feature_objects -> feature_objects -> feature_objects;
  (* the per-sensor feature kernels: the value written to the out parameter *)
  feature_velodyne : PointCloud -> feature_objects -> feature_objects;
  feature_livox : PointCloud -> feature_objects -> feature_objects;
  (* [pcl::transformPointCloud(in, out, m)]: the value written to [out] *)
  transformPointCloud : PointCloud -> Matrix4d -> PointCloud
}.

(** ** [struct local_map] (mapping.cpp 90-206) *)

Module local_map.

Definition previous_frame_count : nat := 20.

Record t `{Eigen} : Type := mk {
  prev_frames : list feature_frame;
  prev_frame_location : list Matrix4d;
  head : nat;
  counters : nat;
  local_map : feature_frame;
  local_map_dirty : bool
}.

Section ops.
Context `{Comm}.

(** The object as its default member initialisers leave it.  Eigen does not
    initialise [prev_frame_location]; [junk] stands for what the slots hold. *)
Definition init (junk : Matrix4d) : t :=
  {| prev_frames := replicate previous_frame_count null_frame;
     prev_frame_location := replicate previous_frame_count junk;
     head := previous_frame_count - 1;
     counters := 0;
     local_map := null_frame;
     local_map_dirty := true |}.

(** The invariant the array types and [push] maintain. *)
Definition wf (lm : t) : Prop :=
  length (prev_frames lm) = previous_frame_count /\
  length (prev_frame_location lm) = previous_frame_count /\
  head lm < previous_frame_count /\
  counters lm <= previous_frame_count.

(** [transform_cloud] (159-172), on one point and on a range. *)
Definition transform_point (matrix : Matrix4d) (point : PointType) : PointType :=
  let '(x', y', z') := mat_apply matrix (px point, py point, pz point) in
  {| px := x'; py := y'; pz := z';
     intensity := intensity point; ring := ring point;
     time_offset := time_offset point |}.

Definition transform_cloud (range : list PointType) (out : list PointType)
    (matrix : Matrix4d) : list PointType :=
  out ++ map (transform_point matrix) range.

(** One [if (src) transform_cloud(src->points, back_inserter(dst->points), m)]
    of [update_local_map]. *)
Definition append_transformed (src dst : option PointCloud) (m : Matrix4d)
    : res (option PointCloud) :=
  match src with
  | None => Ok dst
  | Some s =>
      match dst with
      | None => Fault NullDeref
      | Some d =>
          Ok (Some {| points := transform_cloud (points s) (points d) m;
                      width := width d |})
      end
  end.

Definition fix_width (c : option PointCloud) : option PointCloud :=
  match c with
  | None => None
  | Some d => Some {| points := points d; width := length (points d) |}
  end.

(** Body of the loop at 116-141 for slot [i]. *)
Definition fuse_slot (lm : t) (transform : Matrix4d) (result : feature_frame)
    (i : nat) : res feature_frame :=
  match prev_frame_location lm !! i, prev_frames lm !! i with
  | Some loc, Some fr =>
      let this_transform := mat_mul transform loc in
      vl ← append_transformed (line_features (velodyne_feature fr))
             (line_features (velodyne_feature result)) this_transform;
      vp ← append_transformed (plane_features (velodyne_feature fr))
             (plane_features (velodyne_feature result)) this_transform;
      lp ← append_transformed (plane_features (livox_feature fr))
             (plane_features (livox_feature result)) this_transform;
      ln ← append_transformed (non_features (livox_feature fr))
             (non_features (livox_feature result)) this_transform;
      Ok {| velodyne_feature :=
              {| line_features := vl; plane_features := vp;
                 non_features := non_features (velodyne_feature result) |};
            livox_feature :=
              {| line_features := line_features (livox_feature result);
                 plane_features := lp; non_features := ln |} |}
  | _, _ => Fault OutOfRange
  end.

Fixpoint fuse_slots (lm : t) (transform : Matrix4d) (result : feature_frame)
    (slots : list nat) : res feature_frame :=
  match slots with
  | [] => Ok result
  | i :: rest =>
      result' ← fuse_slot lm transform result i;
      fuse_slots lm transform result' rest
  end.

Definition update_local_map (lm : t) : res feature_frame :=
  if counters lm =? 0 then Fault AssertFailed else
  match prev_frames lm !! head lm, prev_frame_location lm !! head lm with
  | Some hf, Some hloc =>
      let result :=
        {| velodyne_feature := concat null_objects (velodyne_feature hf);
           livox_feature := concat null_objects (livox_feature hf) |} in
      let transform := mat_inverse hloc in
      result ← fuse_slots lm transform result (seq 0 (counters lm));
      Ok {| velodyne_feature :=
              {| line_features := fix_width (line_features (velodyne_feature result));
                 plane_features := fix_width (plane_features (velodyne_feature result));
                 non_features := non_features (velodyne_feature result) |};
            livox_feature :=
              {| line_features := line_features (livox_feature result);
                 plane_features := fix_width (plane_features (livox_feature result));
                 non_features := fix_width (non_features (livox_feature result)) |} |}
  | _, _ => Fault OutOfRange
  end.

(** [get_local_map] (99-105): the cache read, with the state it leaves. *)
Definition get_local_map (lm : t) : res (feature_frame * t) :=
  if local_map_dirty lm then
    fused ← update_local_map lm;
    Ok (fused,
        {| prev_frames := prev_frames lm;
           prev_frame_location := prev_frame_location lm;
           head := head lm;
           counters := counters lm;
           local_map := fused;
           local_map_dirty := false |})
  else Ok (local_map lm, lm).

(** [push] (174-183). *)
Definition push (frame : feature_frame) (transform : Matrix4d) (lm : t) : t :=
  let head' := (head lm + 1) mod previous_frame_count in
  {| prev_frames := <[head' := frame]> (prev_frames lm);
     prev_frame_location := <[head' := transform]> (prev_frame_location lm);
     head := head';
     counters := if counters lm <? previous_frame_count
                 then S (counters lm) else counters lm;
     local_map := local_map lm;
     local_map_dirty := true |}.

Definition empty (lm : t) : bool := counters lm =? 0.

Definition size (lm : t) : nat := counters lm.

(** [tr] (193-196). *)
Definition tr (lm : t) : res Matrix4d :=
  if counters lm =? 0 then Fault AssertFailed else
  match prev_frame_location lm !! head lm with
  | Some m => Ok m
  | None => Fault OutOfRange
  end.

(** The slot [set] writes for [back_index] (200-204). *)
Definition slot_of_back (lm : t) (back_index : nat) : nat :=
  if back_index <=? head lm + 1
  then head lm + 1 - back_index
  else counters lm + head lm + 1 - back_index.

(** [set] (198-205). *)
Definition set (back_index : nat) (transform : Matrix4d) (lm : t) : res t :=
  if back_index <=? counters lm then
    let i := slot_of_back lm back_index in
    if i <? length (prev_frame_location lm) then
      Ok {| prev_frames := prev_frames lm;
            prev_frame_location := <[i := transform]> (prev_frame_location lm);
            head := head lm;
            counters := counters lm;
            local_map := local_map lm;
            local_map_dirty := local_map_dirty lm |}
    else Fault OutOfRange
  else Fault AssertFailed.

(** A run of pushes, oldest first. *)
Definition push_all (items : list (feature_frame * Matrix4d)) (lm : t) : t :=
  fold_left (fun acc it => push (fst it) (snd it) acc) items lm.

End ops.
End local_map.

(** ** Registration (mapping.cpp 14-75) *)

(** [remove_degenerate] is a template over [Scalar]; the section's variables
    are what the template uses of it and of [Eigen::Matrix<Scalar, 6, 6>]. *)
Section remove_degenerate.
Variable Scalar : Type.
(* [operator<] *)
Variable Sltb : Scalar -> Scalar -> bool.
(* [operator+] and the literal [0.5] *)
Variable Splus : Scalar -> Scalar -> Scalar.
Variable Shalf : Scalar.
(* [ATA.eigenvalues()(i).real()] *)
Variable eigenvalues_real : (nat -> nat -> Scalar) -> nat -> Scalar.

(** [ATA(i, j) = v] *)
Definition set_coeff (m : nat -> nat -> Scalar) (i j : nat) (v : Scalar)
    : nat -> nat -> Scalar :=
  fun r c => if (r =? i) && (c =? j) then v else m r c.

(** The scan at 18-23: [n] iterations left, starting at index [i]; it stops at
    the first eigenvalue below the threshold. *)
Fixpoint scan_degenerate (eigen : nat -> Scalar) (threshold : Scalar)
    (i n : nat) : bool :=
  match n with
  | 0 => false
  | S n' =>
      if Sltb (eigen i) threshold then true
      else scan_degenerate eigen threshold (S i) n'
  end.

(** The loop at 26-28. *)
Definition bump_diagonal (ATA : nat -> nat -> Scalar) : nat -> nat -> Scalar :=
  fold_left (fun m i => set_coeff m i i (Splus (m i i) Shalf)) (seq 0 6) ATA.

Definition remove_degenerate (ATA : nat -> nat -> Scalar) (threshold : Scalar)
    : nat -> nat -> Scalar :=
  let eigen := eigenvalues_real ATA in
  let is_degenerate := scan_degenerate eigen threshold 0 6 in
  if is_degenerate then bump_diagonal ATA else ATA.

End remove_degenerate.

(** What [Ab] returns ([residual.h]): the rows of [A], the entries of [b], and
    the number [top] of rows in use. *)
Record Ab_result : Type := mkAb {
  A : nat -> nat -> Q;
  b : nat -> Q;
  top : nat
}.

(** [residual.h] and the dense solvers of Eigen used by [LM2]. *)
Class Residual : Type := {
  feature_adapter : Type;
  make_adapter : feature_objects -> feature_adapter;
  Ab : list (feature_objects * feature_adapter) -> Transform -> Ab_result;
  (* [m.eigenvalues()(i).real()] on a 6x6 matrix *)
  eigenvalues_real : (nat -> nat -> Q) -> nat -> Q;
  (* [m.householderQr().solve(rhs)] *)
  householderQr_solve : (nat -> nat -> Q) -> (nat -> Q) -> nat -> Q
}.

Section LM2.
Context `{Residual}.

(** [A.topRows(top).transpose() * A.topRows(top)] *)
Definition AtA (N : Ab_result) : nat -> nat -> Q :=
  fun r c => fold_left (fun acc k => (acc + A N k r * A N k c)%Q) (seq 0 (top N)) 0%Q.

(** [A.topRows(top).transpose() * b.topRows(top)] *)
Definition Atb (N : Ab_result) : nat -> Q :=
  fun r => fold_left (fun acc k => (acc + A N k r * b N k)%Q) (seq 0 (top N)) 0%Q.

(** Lines 46-50: the matrix handed to the solver on iteration [i]. *)
Definition normal_matrix (i : nat) (degenerate_threshold : Q) (N : Ab_result)
    : nat -> nat -> Q :=
  let ATA := AtA N in
  if i =? 0
  then remove_degenerate Q Qltb Qplus (1 # 2)%Q eigenvalues_real ATA degenerate_threshold
  else ATA.

(** Lines 52-54. *)
Definition LM2_delta (i : nat) (degenerate_threshold : Q) (N : Ab_result)
    : nat -> Q :=
  householderQr_solve (normal_matrix i degenerate_threshold N) (Atb N).

(** Lines 56-62. *)
Definition add_delta (initial : Transform) (delta : nat -> Q) : Transform :=
  {| tx := (tx initial + delta 0%nat)%Q;
     ty := (ty initial + delta 1%nat)%Q;
     tz := (tz initial + delta 2%nat)%Q;
     troll := (troll initial + delta 3%nat)%Q;
     tpitch := (tpitch initial + delta 4%nat)%Q;
     tyaw := (tyaw initial + delta 5%nat)%Q |}.

Definition p2 (v : Q) : Q := (v * v)%Q.

(** Lines 64-71: the convergence test. *)
Definition converged (delta : nat -> Q) : bool :=
  let delta_xyz := (p2 (delta 0%nat) + p2 (delta 1%nat) + p2 (delta 2%nat))%Q in
  let delta_rpy := (p2 (delta 3%nat) + p2 (delta 4%nat) + p2 (delta 5%nat))%Q in
  Qltb delta_xyz (1 # 10000000)%Q && Qltb delta_rpy (1 # 10000000)%Q.

(** The [for] loop at 36-72 with [fuel] iterations left; [i] is the loop
    counter and [initial] the running estimate. *)
Fixpoint LM2_loop (this_features : feature_frame)
    (adap_velodyne adap_livox : feature_adapter) (degenerate_threshold : Q)
    (fuel i : nat) (initial : Transform) : Transform :=
  match fuel with
  | 0 => initial
  | S fuel' =>
      let N := Ab [ (velodyne_feature this_features, adap_velodyne);
                    (livox_feature this_features, adap_livox) ] initial in
      if top N =? 0 then initial
      else
        let delta := LM2_delta i degenerate_threshold N in
        let tr := add_delta initial delta in
        if converged delta then tr
        else LM2_loop this_features adap_velodyne adap_livox
               degenerate_threshold fuel' (S i) tr
  end.

Definition LM2 (this_features local_maps : feature_frame)
    (degenerate_threshold : Q) (initial : Transform) : Transform :=
  let adap_velodyne := make_adapter (velodyne_feature local_maps) in
  let adap_livox := make_adapter (livox_feature local_maps) in
  LM2_loop this_features adap_velodyne adap_livox degenerate_threshold 30 0 initial.

End LM2.

(** [feature_ok] (77-88). *)
Definition short_of (c : option PointCloud) (n : nat) : bool :=
  match c with
  | Some cl => cloud_size cl <? n
  | None => false
  end.

Definition feature_ok (object : feature_objects) : bool :=
  if short_of (line_features object) 10 then false
  else if short_of (plane_features object) 100 then false
  else if short_of (non_features object) 100 then false
  else true.

(** ** ROS messages used by the odometry *)

Definition ros_Time : Type := Q.

Record Pose : Type := mkPose {
  position : Vector3;
  orientation : Quaternion
}.

Record PoseStamped : Type := mkPoseStamped {
  stamp : ros_Time;
  pose : Pose
}.

(** [nav_msgs::Path] and [visualization_msgs::Marker]: the fields the code
    writes after construction. *)
Record Path : Type := mkPath {
  path_stamp : ros_Time;
  poses : list PoseStamped
}.

Record Marker : Type := mkMarker {
  marker_stamp : ros_Time;
  marker_points : list Vector3
}.

(** [to_ros_pose] (208-223). *)
Definition to_ros_pose `{Eigen} (transform : Matrix4d) : Pose :=
  {| position := (mat_coeff transform 0 3, mat_coeff transform 1 3,
                  mat_coeff transform 2 3);
     orientation := mat_quaternion transform |}.

(** ** The loop-closure module ([loop.h]) *)

Record loop_edge : Type := mkEdge {
  source_frame_id : nat;
  target_frame_id : nat
}.

Class Loop `{Eigen} : Type := {
  loop_var : Type;
  (* [loop.loop_detection(cloud, frame, transform)]: the index returned and
     the module afterwards *)
  loop_var_loop_detection :
    loop_var -> PointCloud -> feature_objects -> Matrix4d -> nat * loop_var;
  (* [loop.btr(i)], [loop.tr(i)], [loop.loop] *)
  loop_var_btr : loop_var -> nat -> Matrix4d;
  loop_var_tr : loop_var -> nat -> Matrix4d;
  loop_var_loop : loop_var -> list loop_edge
}.

(** ** [visual_odom_v2_config] (225-242) *)

Module visual_odom_v2_config.

Record t : Type := mk {
  degenerate_threshold : Q;
  key_frame_distance_x : Q;
  key_frame_distance_y : Q;
  key_frame_distance_z : Q;
  key_frame_distance_roll : Q;
  key_frame_distance_pitch : Q;
  key_frame_distance_yaw : Q;
  loop_loss : Q;
  loop_reset : Z;
  loop_initial_load : Z;
  enable_loop : bool
}.

(** The default member initialisers, which are also the defaults
    [get_odom_config] passes to the parameter server. *)
Definition default : t :=
  {| degenerate_threshold := 10;
     key_frame_distance_x := 1 # 2;
     key_frame_distance_y := 1 # 2;
     key_frame_distance_z := 1 # 10;
     key_frame_distance_roll := 2 # 100;
     key_frame_distance_pitch := 2 # 100;
     key_frame_distance_yaw := 2 # 100;
     loop_loss := 5 # 100;
     loop_reset := 5;
     loop_initial_load := 100;
     enable_loop := true |}.

End visual_odom_v2_config.

(** [result_of<T, E>] with its constructors [ok] and [fail]. *)
Inductive result_of (T E : Type) : Type :=
| ok (v : T)
| fail (e : E).

Arguments ok {T E} v.
Arguments fail {T E} e.

(** ** [struct visual_odom_v2] (266-399) *)

Module visual_odom_v2.

Record t `{Eigen} `{!Loop} : Type := mk {
  local_maps : local_map.t;
  next_initial_guess : Transform;
  degenerate_threshold : Q;
  loop : loop_var;
  config : visual_odom_v2_config.t;
  loop_markers : Marker;
  final_path : Path
}.

Section ops.
Context `{Comm} `{!Loop} `{!Residual}.

Definition with_local_maps (st : t) (lm : local_map.t) : t :=
  {| local_maps := lm;
     next_initial_guess := next_initial_guess st;
     degenerate_threshold := degenerate_threshold st;
     loop := loop st;
     config := config st;
     loop_markers := loop_markers st;
     final_path := final_path st |}.

Definition with_next_initial_guess (st : t) (Tr : Transform) : t :=
  {| local_maps := local_maps st;
     next_initial_guess := Tr;
     degenerate_threshold := degenerate_threshold st;
     loop := loop st;
     config := config st;
     loop_markers := loop_markers st;
     final_path := final_path st |}.

Definition with_loop (st : t) (lp : loop_var) : t :=
  {| local_maps := local_maps st;
     next_initial_guess := next_initial_guess st;
     degenerate_threshold := degenerate_threshold st;
     loop := lp;
     config := config st;
     loop_markers := loop_markers st;
     final_path := final_path st |}.

Definition with_loop_markers (st : t) (m : Marker) : t :=
  {| local_maps := local_maps st;
     next_initial_guess := next_initial_guess st;
     degenerate_threshold := degenerate_threshold st;
     loop := loop st;
     config := config st;
     loop_markers := m;
     final_path := final_path st |}.

Definition with_final_path (st : t) (p : Path) : t :=
  {| local_maps := local_maps st;
     next_initial_guess := next_initial_guess st;
     degenerate_threshold := degenerate_threshold st;
     loop := loop st;
     config := config st;
     loop_markers := loop_markers st;
     final_path := p |}.

(** [update_current_frame] (303-323). *)
Definition update_current_frame (this_features : feature_frame) (st : t)
    : res (result_of Transform string * t) :=
  if negb (feature_ok (velodyne_feature this_features)) then
    Ok (fail "velodyne not enough features"%string, st)
  else if negb (feature_ok (livox_feature this_features)) then
    Ok (fail "livox not enough features"%string, st)
  else if local_map.empty (local_maps st) then
    Ok (ok Transform_zero,
        with_local_maps st (local_map.push this_features Identity (local_maps st)))
  else
    '(M, lm) ← local_map.get_local_map (local_maps st);
    let Tr := LM2 this_features M (degenerate_threshold st) (next_initial_guess st) in
    Ok (ok Tr, with_next_initial_guess (with_local_maps st lm) Tr).

(** The loop at 331-333: [set(i, loop.btr(i))] for the back indices listed. *)
Fixpoint set_from_loop (lp : loop_var) (indices : list nat) (lm : local_map.t)
    : res local_map.t :=
  match indices with
  | [] => Ok lm
  | i :: rest =>
      lm' ← local_map.set i (loop_var_btr lp i) lm;
      set_from_loop lp rest lm'
  end.

(** The loop at 335-338: [poses[i].pose = to_ros_pose(loop.tr(i))]. *)
Definition rewrite_pose (lp : loop_var) (ps : list PoseStamped) (i : nat)
    : list PoseStamped :=
  alter (fun p => {| stamp := stamp p; pose := to_ros_pose (loop_var_tr lp i) |}) i ps.

Definition rewrite_poses (lp : loop_var) (result : nat) (ps : list PoseStamped)
    : list PoseStamped :=
  fold_left (rewrite_pose lp) (seq result (length ps - result)) ps.

(** The loop at 340-353. *)
Definition translation_of (m : Matrix4d) : Vector3 :=
  (mat_coeff m 0 3, mat_coeff m 1 3, mat_coeff m 2 3).

Definition edge_points (lp : loop_var) : list Vector3 :=
  flat_map (fun r => [ translation_of (loop_var_tr lp (source_frame_id r));
                       translation_of (loop_var_tr lp (target_frame_id r)) ])
           (loop_var_loop lp).

(** [loop_detection] (325-356). *)
Definition loop_detection (cloud : PointCloud) (frame : feature_objects)
    (transform : Matrix4d) (st : t) : res (Matrix4d * t) :=
  let '(result, lp) := loop_var_loop_detection (loop st) cloud frame transform in
  let st := with_loop st lp in
  if result =? 0 then Ok (transform, st)
  else
    lm ← set_from_loop lp (seq 1 (local_map.size (local_maps st))) (local_maps st);
    let st := with_local_maps st lm in
    let st := with_final_path st
                {| path_stamp := path_stamp (final_path st);
                   poses := rewrite_poses lp result (poses (final_path st)) |} in
    let st := with_loop_markers st
                {| marker_stamp := marker_stamp (loop_markers st);
                   marker_points := edge_points lp |} in
    Ok (loop_var_btr lp 1, st).

(** The keyframe gate at 373-378. *)
Definition too_small (st : t) (Tr : Transform) : bool :=
  negb (local_map.empty (local_maps st))
  && Qltb (Qabs (tx Tr)) (visual_odom_v2_config.key_frame_distance_x (config st))
  && Qltb (Qabs (ty Tr)) (visual_odom_v2_config.key_frame_distance_y (config st))
  && Qltb (Qabs (tz Tr)) (visual_odom_v2_config.key_frame_distance_z (config st))
  && Qltb (Qabs (troll Tr)) (visual_odom_v2_config.key_frame_distance_roll (config st))
  && Qltb (Qabs (tpitch Tr)) (visual_odom_v2_config.key_frame_distance_pitch (config st))
  && Qltb (Qabs (tyaw Tr)) (visual_odom_v2_config.key_frame_distance_yaw (config st)).

(** [mapping] (361-398). *)
Definition mapping (velodyne_cloud : PointCloud) (frame : feature_frame)
    (time : ros_Time) (st : t) : res (option Matrix4d * t) :=
  '(Mr, st) ← update_current_frame frame st;
  match Mr with
  | fail _ => Ok (None, st)
  | ok Tr =>
      head_tr ← local_map.tr (local_maps st);
      let M := mat_mul head_tr (to_eigen Tr) in
      if too_small st Tr then Ok (Some M, st)
      else
        let st := with_local_maps st (local_map.push frame M (local_maps st)) in
        let pose := {| stamp := time; pose := to_ros_pose M |} in
        let st := with_final_path st
                    {| path_stamp := time;
                       poses := poses (final_path st) ++ [pose] |} in
        let st := with_loop_markers st
                    {| marker_stamp := time;
                       marker_points := marker_points (loop_markers st) |} in
        if visual_odom_v2_config.enable_loop (config st) then
          '(M', st) ← loop_detection velodyne_cloud (velodyne_feature frame) M st;
          Ok (Some M', st)
        else Ok (Some M, st)
  end.

(** A run of the worker over a list of frames from [st]: the state after the
    last frame, when no frame faults. *)
Fixpoint mapping_run (frames : list (PointCloud * feature_frame * ros_Time))
    (st : t) : res t :=
  match frames with
  | [] => Ok st
  | (cloud, frame, time) :: rest =>
      '(_, st') ← mapping cloud frame time st;
      mapping_run rest st'
  end.

End ops.
End visual_odom_v2.

(** ** Start-up: the two constructors *)

(** The parameters as the parameter server resolves them (a missing key yields
    the default the code passes). *)
Record startup_params : Type := mkParams {
  param_use_livox : bool;
  param_use_velodyne : bool;
  param_livox_transform : list Q;
  param_degenerate_threshold : Q
}.

(** The ROS log lines of the constructors.  [ROS_FATAL], [ROS_WARN] and
    [ROS_INFO] write a log line and return. *)
Inductive diagnostic : Type :=
| FATAL_both_false
| FATAL_livox_transform_size (got : nat)
| INFO_livox_transform (tr : Transform)
| WARN_degenerate_threshold (value : Q).

(** [v[i]] on a [std::vector]. *)
Definition vector_at (v : list Q) (i : nat) : res Q :=
  match v !! i with
  | Some q => Ok q
  | None => Fault OutOfRange
  end.

(** The size check and the six reads, written alike in both constructors
    (features.cpp 82-94, mapping.cpp 552-564). *)
Definition size_check (livox_cab : list Q) : list diagnostic :=
  if length livox_cab =? 6 then []
  else [FATAL_livox_transform_size (length livox_cab)].

Definition read_livox_cab (livox_cab : list Q) : res Transform :=
  c0 ← vector_at livox_cab 0;
  c1 ← vector_at livox_cab 1;
  c2 ← vector_at livox_cab 2;
  c3 ← vector_at livox_cab 3;
  c4 ← vector_at livox_cab 4;
  c5 ← vector_at livox_cab 5;
  Ok (mkTransform c0 c1 c2 c3 c4 c5).

Record synced_message : Type := mkMessage {
  time : ros_Time;
  velodyne : PointCloud;
  livox : PointCloud
}.

(** [p->...] on a [Ptr]. *)
Definition deref {T} (p : option T) : res T :=
  match p with
  | Some v => Ok v
  | None => Fault NullDeref
  end.

(** ** [struct feature_thread] (features.cpp) *)

Module feature_thread.

Record t `{Eigen} : Type := mk {
  livox_transform : Matrix4d;
  use_livox : bool;
  use_velodyne : bool
}.

Section ops.
Context `{Comm}.

(** The constructor (68-100): the log it writes, and the object with its
    worker started when the constructor returns. *)
Definition construct (p : startup_params) : list diagnostic * res t :=
  let both_false := negb (param_use_livox p) && negb (param_use_velodyne p) in
  let log1 := if both_false then [FATAL_both_false] else [] in
  let use_livox' := if both_false then true else param_use_livox p in
  let use_velodyne' := if both_false then true else param_use_velodyne p in
  let livox_cab := param_livox_transform p in
  let log2 := log1 ++ size_check livox_cab in
  match read_livox_cab livox_cab with
  | Ok tr =>
      (log2 ++ [INFO_livox_transform tr],
       Ok {| livox_transform := mat_inverse (to_eigen tr);
             use_livox := use_livox';
             use_velodyne := use_velodyne' |})
  | Fault f => (log2, Fault f)
  end.

(** Lines 38-45: [None] is the [continue]. *)
Definition velodyne_branch (self : t) (msg : synced_message)
    (frame : feature_frame) : res (option feature_frame) :=
  if use_velodyne self then
    let vf := feature_velodyne (velodyne msg) (velodyne_feature frame) in
    line ← deref (line_features vf);
    if cloud_size line <? 20 then Ok None
    else
      plane ← deref (plane_features vf);
      if cloud_size plane <? 100 then Ok None
      else Ok (Some {| velodyne_feature := vf;
                       livox_feature := livox_feature frame |})
  else Ok (Some frame).

(** Lines 47-60. *)
Definition livox_branch (self : t) (msg : synced_message)
    (frame : feature_frame) : res (option feature_frame) :=
  if use_livox self then
    let lf := feature_livox (livox msg) (livox_feature frame) in
    plane ← deref (plane_features lf);
    if cloud_empty plane then Ok None
    else
      non ← deref (non_features lf);
      if cloud_empty non then Ok None
      else
        let plane' := transformPointCloud plane (livox_transform self) in
        let non' := transformPointCloud non (livox_transform self) in
        Ok (Some {| velodyne_feature := velodyne_feature frame;
                    livox_feature :=
                      {| line_features := line_features lf;
                         plane_features := Some plane';
                         non_features := Some non' |} |})
  else Ok (Some frame).

(** One iteration of the loop at 35-63: [Some (msg, frame)] is the call of
    [feature_frame_delegate], [None] a dropped message. *)
Definition features_step (self : t) (msg : synced_message)
    : res (option (synced_message * feature_frame)) :=
  r ← velodyne_branch self msg null_frame;
  match r with
  | None => Ok None
  | Some frame =>
      r' ← livox_branch self msg frame;
      match r' with
      | None => Ok None
      | Some frame' => Ok (Some (msg, frame'))
      end
  end.

(** The loop at 35-63 over one acquired batch.  [should_stop k] is the value
    of the volatile flag the worker reads at the [k]-th test of the loop
    condition; the result lists the delegate calls in order. *)
Fixpoint features_batch (self : t) (should_stop : nat -> bool) (k : nat)
    (pq : list synced_message) : res (list (synced_message * feature_frame)) :=
  match pq with
  | [] => Ok []
  | msg :: rest =>
      if should_stop k then Ok []
      else
        r ← features_step self msg;
        out ← features_batch self should_stop (S k) rest;
        Ok (match r with Some published => published :: out | None => out end)
  end.

End ops.
End feature_thread.

(** ** [struct mapping_thread]: the constructor (mapping.cpp 535-572) *)

Module mapping_thread.

Record t `{Eigen} : Type := mk {
  livox_transform : Matrix4d;
  degenerate_threshold : Q
}.

Section ops.
Context `{Comm}.

(** The worker is started at 543, before the parameters are read. *)
Definition construct (p : startup_params) : list diagnostic * res t :=
  let livox_cab := param_livox_transform p in
  let log1 := size_check livox_cab in
  match read_livox_cab livox_cab with
  | Ok tr =>
      let threshold := param_degenerate_threshold p in
      (log1 ++ [INFO_livox_transform tr]
            ++ (if Qltb threshold 5 then [WARN_degenerate_threshold threshold] else []),
       Ok {| livox_transform := mat_inverse (to_eigen tr);
             degenerate_threshold := threshold |})
  | Fault f => (log1, Fault f)
  end.

End ops.
End mapping_thread.

(** Start-up runs both constructors; the pipeline runs when both return. *)
Definition startup `{Comm} (p : startup_params)
    : list diagnostic * res (feature_thread.t * mapping_thread.t) :=
  let '(logf, rf) := feature_thread.construct p in
  match rf with
  | Fault f => (logf, Fault f)
  | Ok ft =>
      let '(logm, rm) := mapping_thread.construct p in
      match rm with
      | Fault f => (logf ++ logm, Fault f)
      | Ok mt => (logf ++ logm, Ok (ft, mt))
      end
  end.

Definition pipeline_runs `{Comm} (p : startup_params) : Prop :=
  exists ft mt, snd (startup p) = Ok (ft, mt).

(** ** A concrete interpretation of the interfaces

    Rigid motions are restricted to translations by whole units along the x
    axis, so a [Matrix4d] is the integer offset.  The interpretation is used to
    run the code on concrete inputs. *)

Module Toy.

Definition shift (m : Z) (v : Vector3) : Vector3 :=
  let '(vx, vy, vz) := v in ((vx + inject_Z m)%Q, vy, vz).

Definition eigen : Eigen :=
  {| Matrix4d := Z;
     Identity := 0%Z;
     mat_mul := Z.add;
     mat_inverse := Z.opp;
     mat_coeff := fun m i j =>
       if (i =? 0) && (j =? 3) then inject_Z m
       else if i =? j then 1%Q else 0%Q;
     mat_apply := shift;
     mat_quaternion := fun _ => (0%Q, 0%Q, 0%Q, 1%Q) |}.

Definition move_point (m : Z) (p : PointType) : PointType :=
  {| px := (px p + inject_Z m)%Q; py := py p; pz := pz p;
     intensity := intensity p; ring := ring p; time_offset := time_offset p |}.

(** [concat] appends the clouds of [src] to those of [dst], allocating the
    clouds [dst] lacks. *)
Definition concat_cloud (dst src : option PointCloud) : option PointCloud :=
  match src, dst with
  | None, _ => dst
  | Some s, None => Some s
  | Some s, Some d =>
      Some {| points := points d ++ points s;
              width := length (points d ++ points s) |}
  end.

Definition comm : @Comm eigen :=
  {| to_eigen := fun tr => Qfloor (tx tr) : @Matrix4d eigen;
     concat := fun dst src =>
       {| line_features := concat_cloud (line_features dst) (line_features src);
          plane_features := concat_cloud (plane_features dst) (plane_features src);
          non_features := concat_cloud (non_features dst) (non_features src) |};
     feature_velodyne := fun cloud out =>
       {| line_features := Some cloud; plane_features := Some cloud;
          non_features := non_features out |};
     feature_livox := fun cloud out =>
       {| line_features := line_features out; plane_features := Some cloud;
          non_features := Some cloud |};
     transformPointCloud := fun cloud (m : @Matrix4d eigen) =>
       {| points := map (move_point m) (points cloud); width := width cloud |} |}.

(** A residual kernel that finds no correspondence. *)
Definition residual_none : Residual :=
  {| feature_adapter := unit;
     make_adapter := fun _ => tt;
     Ab := fun _ _ => {| A := fun _ _ => 0%Q; b := fun _ => 0%Q; top := 0 |};
     eigenvalues_real := fun _ _ => 0%Q;
     householderQr_solve := fun _ rhs => rhs |}.

(** A residual kernel with one correspondence of residual zero, as when the
    observed frame coincides with the map; the eigenvalues are read off the
    diagonal and the solver returns the right-hand side. *)
Definition residual_one : Residual :=
  {| feature_adapter := unit;
     make_adapter := fun _ => tt;
     Ab := fun _ _ =>
       {| A := fun _ c => if c =? 0 then 1%Q else 0%Q;
          b := fun _ => 0%Q;
          top := 1 |};
     eigenvalues_real := fun m i => m i i;
     householderQr_solve := fun _ rhs => rhs |}.

(** A loop module that never closes a loop. *)
Definition loop_never : @Loop eigen :=
  {| loop_var := unit;
     loop_var_loop_detection := fun lp _ _ _ => (0, lp);
     loop_var_btr := fun _ _ => 0%Z : @Matrix4d eigen;
     loop_var_tr := fun _ _ => 0%Z : @Matrix4d eigen;
     loop_var_loop := fun _ => [] |}.

(** A loop module that reports its state as the first changed index, and
    corrects back index [i] to offset [i] and trajectory index [j] to offset
    [100 + j]. *)
Definition loop_fixed : @Loop eigen :=
  {| loop_var := nat;
     loop_var_loop_detection := fun lp _ _ _ => (lp, lp);
     loop_var_btr := fun _ i => Z.of_nat i : @Matrix4d eigen;
     loop_var_tr := fun _ j => (100 + Z.of_nat j)%Z : @Matrix4d eigen;
     loop_var_loop := fun _ => [ {| source_frame_id := 0; target_frame_id := 1 |} ] |}.

Definition point_at (v : Q) : PointType :=
  {| px := v; py := 0%Q; pz := 0%Q; intensity := 0%Q; ring := 0;
     time_offset := 0%Q |}.

Definition cloud_of (n : nat) (v : Q) : PointCloud :=
  {| points := replicate n (point_at v); width := n |}.

(** A frame with [n] points at abscissa [v] in each of the four sub-clouds. *)
Definition frame_of (n : nat) (v : Q) : feature_frame :=
  {| velodyne_feature :=
       {| line_features := Some (cloud_of n v);
          plane_features := Some (cloud_of n v);
          non_features := None |};
     livox_feature :=
       {| line_features := None;
          plane_features := Some (cloud_of n v);
          non_features := Some (cloud_of n v) |} |}.

Definition good_frame : feature_frame := frame_of 100 1%Q.

(** The odometry as constructed, before the first frame. *)
Definition odom0 (L : @Loop eigen) (lp : @loop_var eigen L)
    : @visual_odom_v2.t eigen L :=
  {| visual_odom_v2.local_maps := @local_map.init eigen 0%Z;
     visual_odom_v2.next_initial_guess := Transform_zero;
     visual_odom_v2.degenerate_threshold := 10%Q;
     visual_odom_v2.loop := lp;
     visual_odom_v2.config := visual_odom_v2_config.default;
     visual_odom_v2.loop_markers := {| marker_stamp := 0%Q; marker_points := [] |};
     visual_odom_v2.final_path := {| path_stamp := 0%Q; poses := [] |} |}.

(** The odometry after one keyframe at the origin, with [guess] as the next
    initial guess. *)
Definition odom1 (L : @Loop eigen) (lp : @loop_var eigen L) (guess : Transform)
    : @visual_odom_v2.t eigen L :=
  {| visual_odom_v2.local_maps :=
       @local_map.push eigen good_frame 0%Z (@local_map.init eigen 0%Z);
     visual_odom_v2.next_initial_guess := guess;
     visual_odom_v2.degenerate_threshold := 10%Q;
     visual_odom_v2.loop := lp;
     visual_odom_v2.config := visual_odom_v2_config.default;
     visual_odom_v2.loop_markers := {| marker_stamp := 0%Q; marker_points := [] |};
     visual_odom_v2.final_path := {| path_stamp := 0%Q; poses := [] |} |}.

(** A frame with too few line features for [feature_ok]. *)
Definition poor_frame : feature_frame :=
  {| velodyne_feature :=
       {| line_features := Some (cloud_of 5 1%Q);
          plane_features := Some (cloud_of 100 1%Q);
          non_features := None |};
     livox_feature := livox_feature good_frame |}.

(** An odometry with two keyframes in the ring and three poses in the
    trajectory, whose loop module will report index 1. *)
Definition pose_at (t : Q) (m : Z) : PoseStamped :=
  {| stamp := t; pose := @to_ros_pose eigen m |}.

Definition odom_loop : @visual_odom_v2.t eigen loop_fixed :=
  {| visual_odom_v2.local_maps :=
       @local_map.push eigen (frame_of 1 2%Q) 5%Z
         (@local_map.push eigen (frame_of 1 1%Q) 0%Z (@local_map.init eigen 0%Z));
     visual_odom_v2.next_initial_guess := Transform_zero;
     visual_odom_v2.degenerate_threshold := 10%Q;
     visual_odom_v2.loop := 1 : @loop_var eigen loop_fixed;
     visual_odom_v2.config := visual_odom_v2_config.default;
     visual_odom_v2.loop_markers := {| marker_stamp := 0%Q; marker_points := [] |};
     visual_odom_v2.final_path :=
       {| path_stamp := 2%Q;
          poses := [pose_at 0 0; pose_at 1 5; pose_at 2 7] |} |}.

Definition both_disabled : startup_params :=
  {| param_use_livox := false;
     param_use_velodyne := false;
     param_livox_transform := [0; 0; 0; 0; 0; 0]%Q;
     param_degenerate_threshold := 10%Q |}.

End Toy.

(** ** Vocabulary of the statements *)

(** The entry [back_index] steps before the head, in the addressing of
    [local_map::set]: 1 is the head itself. *)
Definition back_entry `{Eigen} (lm : local_map.t) (back_index : nat)
    : option (feature_frame * Matrix4d) :=
  let i := local_map.slot_of_back lm back_index in
  match local_map.prev_frames lm !! i, local_map.prev_frame_location lm !! i with
  | Some f, Some m => Some (f, m)
  | _, _ => None
  end.

(** The valid entries, traversed from the head backwards. *)
Definition entries_backwards `{Eigen} (lm : local_map.t)
    : list (option (feature_frame * Matrix4d)) :=
  map (back_entry lm) (seq 1 (local_map.counters lm)).

(** The states [push] reaches from a fresh ring. *)
Definition reachable `{Eigen} (lm : local_map.t) : Prop :=
  local_map.wf lm /\
  (local_map.counters lm = local_map.previous_frame_count \/
   (local_map.head lm + 1) mod local_map.previous_frame_count = local_map.counters lm).

(** Two rings that differ at most in the transforms of their slots. *)
Definition same_frames `{Eigen} (lm lm' : local_map.t) : Prop :=
  local_map.prev_frames lm' = local_map.prev_frames lm /\
  local_map.head lm' = local_map.head lm /\
  local_map.counters lm' = local_map.counters lm /\
  local_map.local_map lm' = local_map.local_map lm /\
  local_map.local_map_dirty lm' = local_map.local_map_dirty lm /\
  length (local_map.prev_frame_location lm') = length (local_map.prev_frame_location lm).

(** Two rings with the same head, count and slots (the cache may differ). *)
Definition same_ring `{Eigen} (lm lm' : local_map.t) : Prop :=
  local_map.prev_frames lm' = local_map.prev_frames lm /\
  local_map.prev_frame_location lm' = local_map.prev_frame_location lm /\
  local_map.head lm' = local_map.head lm /\
  local_map.counters lm' = local_map.counters lm.

(** The two sides of the keyframe gate. *)
Definition all_below (c : visual_odom_v2_config.t) (Tr : Transform) : Prop :=
  (Qabs (tx Tr) < visual_odom_v2_config.key_frame_distance_x c)%Q /\
  (Qabs (ty Tr) < visual_odom_v2_config.key_frame_distance_y c)%Q /\
  (Qabs (tz Tr) < visual_odom_v2_config.key_frame_distance_z c)%Q /\
  (Qabs (troll Tr) < visual_odom_v2_config.key_frame_distance_roll c)%Q /\
  (Qabs (tpitch Tr) < visual_odom_v2_config.key_frame_distance_pitch c)%Q /\
  (Qabs (tyaw Tr) < visual_odom_v2_config.key_frame_distance_yaw c)%Q.

Definition some_at_or_above (c : visual_odom_v2_config.t) (Tr : Transform) : Prop :=
  (visual_odom_v2_config.key_frame_distance_x c <= Qabs (tx Tr))%Q \/
  (visual_odom_v2_config.key_frame_distance_y c <= Qabs (ty Tr))%Q \/
  (visual_odom_v2_config.key_frame_distance_z c <= Qabs (tz Tr))%Q \/
  (visual_odom_v2_config.key_frame_distance_roll c <= Qabs (troll Tr))%Q \/
  (visual_odom_v2_config.key_frame_distance_pitch c <= Qabs (tpitch Tr))%Q \/
  (visual_odom_v2_config.key_frame_distance_yaw c <= Qabs (tyaw Tr))%Q.


(** The checks of the feature stage on what the kernels produce. *)
Definition velodyne_check (vf : feature_objects) : Prop :=
  exists line plane,
    line_features vf = Some line /\ plane_features vf = Some plane /\
    20 <= cloud_size line /\ 100 <= cloud_size plane.

Definition livox_check (lf : feature_objects) : Prop :=
  exists plane non,
    plane_features lf = Some plane /\ non_features lf = Some non /\
    cloud_size plane <> 0 /\ cloud_size non <> 0.

(** Every enabled sensor branch passes its check. *)
Definition branches_pass `{Comm} (self : feature_thread.t) (msg : synced_message)
    : Prop :=
  (feature_thread.use_velodyne self = true ->
     velodyne_check (feature_velodyne (velodyne msg) null_objects)) /\
  (feature_thread.use_livox self = true ->
     livox_check (feature_livox (livox msg) null_objects)).

(** The kernels of the enabled branches allocate the sub-clouds the stage
    reads: line and plane for the spinning sensor, plane and non-feature for
    the solid-state one. *)
Definition populated `{Comm} (self : feature_thread.t) (msg : synced_message)
    : Prop :=
  (feature_thread.use_velodyne self = true ->
     is_Some (line_features (feature_velodyne (velodyne msg) null_objects)) /\
     is_Some (plane_features (feature_velodyne (velodyne msg) null_objects))) /\
  (feature_thread.use_livox self = true ->
     is_Some (plane_features (feature_livox (livox msg) null_objects)) /\
     is_Some (non_features (feature_livox (livox msg) null_objects))).

(** The configurations the start-up diagnostics are about. *)
Definition both_sensors_disabled (p : startup_params) : Prop :=
  param_use_livox p = false /\ param_use_velodyne p = false.

Definition bad_config (p : startup_params) : Prop :=
  length (param_livox_transform p) <> 6 \/ both_sensors_disabled p.

(** ** The mapping worker (mapping.cpp 445-468, 485-516) *)

(** What the worker hands to its publishers and to the transform
    broadcaster. *)
Inductive publication : Type :=
| g_velodyne (cloud : PointCloud) (stamp : ros_Time)
| g_livox (cloud : PointCloud) (stamp : ros_Time)
| tf_map_velodyne16 (origin : Vector3) (rotation : Quaternion) (stamp : ros_Time)
| paths (p : Path)
| loop_marker (m : Marker).

Module mapping_worker.
Section ops.
Context `{Comm} `{!Loop} `{!Residual}.

(** [publish_transform] (445-454). *)
Definition publish_transform (transform : Matrix4d) (time : ros_Time)
    : publication :=
  tf_map_velodyne16
    (mat_coeff transform 0 3, mat_coeff transform 1 3, mat_coeff transform 2 3)
    (mat_quaternion transform) time.

(** [publish_map] (456-468). *)
Definition publish_map (velodyne livox : PointCloud) (time : ros_Time)
    : list publication :=
  [g_velodyne velodyne time; g_livox livox time].

(** One iteration of the inner loop (492-514) on the front of the queue. *)
Definition step (self : mapping_thread.t)
    (item : synced_message * feature_frame) (odom : visual_odom_v2.t)
    : res (list publication * visual_odom_v2.t) :=
  let s := fst item in
  '(Mr, odom) ← visual_odom_v2.mapping (velodyne s) (snd item) (time s) odom;
  match Mr with
  | None => Ok ([], odom)
  | Some M =>
      let LX := mat_mul M (mapping_thread.livox_transform self) in
      let final_cloud_velodyne := transformPointCloud (velodyne s) M in
      let final_cloud_livox := transformPointCloud (livox s) LX in
      Ok (publish_map final_cloud_velodyne final_cloud_livox (time s)
            ++ [publish_transform M (time s);
                paths (visual_odom_v2.final_path odom)]
            ++ (if marker_points (visual_odom_v2.loop_markers odom) is []
                then []
                else [loop_marker (visual_odom_v2.loop_markers odom)]),
          odom)
  end.

(** The inner loop (491-515) over one acquired batch; [should_stop k] is the
    flag as read at the [k]-th test of the loop condition. *)
Fixpoint batch (self : mapping_thread.t) (should_stop : nat -> bool) (k : nat)
    (pq : list (synced_message * feature_frame)) (odom : visual_odom_v2.t)
    : res (list publication * visual_odom_v2.t) :=
  match pq with
  | [] => Ok ([], odom)
  | item :: rest =>
      if should_stop k then Ok ([], odom)
      else
        '(out, odom) ← step self item odom;
        '(outs, odom) ← batch self should_stop (S k) rest odom;
        Ok (out ++ outs, odom)
  end.

End ops.
End mapping_worker.

(** A fault other than a null dereference does not occur. *)
Definition safe {T} (r : res T) : Prop :=
  match r with
  | Ok _ => True
  | Fault f => f = NullDeref
  end.

Definition is_fatal (d : diagnostic) : bool :=
  match d with
  | FATAL_both_false | FATAL_livox_transform_size _ => true
  | _ => false
  end.

(** The odometry with another value in [config.degenerate_threshold]. *)
Definition with_config_threshold `{Eigen} `{!Loop} (st : visual_odom_v2.t)
    (q : Q) : visual_odom_v2.t :=
  let c := visual_odom_v2.config st in
  {| visual_odom_v2.local_maps := visual_odom_v2.local_maps st;
     visual_odom_v2.next_initial_guess := visual_odom_v2.next_initial_guess st;
     visual_odom_v2.degenerate_threshold := visual_odom_v2.degenerate_threshold st;
     visual_odom_v2.loop := visual_odom_v2.loop st;
     visual_odom_v2.config :=
       {| visual_odom_v2_config.degenerate_threshold := q;
          visual_odom_v2_config.key_frame_distance_x :=
            visual_odom_v2_config.key_frame_distance_x c;
          visual_odom_v2_config.key_frame_distance_y :=
            visual_odom_v2_config.key_frame_distance_y c;
          visual_odom_v2_config.key_frame_distance_z :=
            visual_odom_v2_config.key_frame_distance_z c;
          visual_odom_v2_config.key_frame_distance_roll :=
            visual_odom_v2_config.key_frame_distance_roll c;
          visual_odom_v2_config.key_frame_distance_pitch :=
            visual_odom_v2_config.key_frame_distance_pitch c;
          visual_odom_v2_config.key_frame_distance_yaw :=
            visual_odom_v2_config.key_frame_distance_yaw c;
          visual_odom_v2_config.loop_loss := visual_odom_v2_config.loop_loss c;
          visual_odom_v2_config.loop_reset := visual_odom_v2_config.loop_reset c;
          visual_odom_v2_config.loop_initial_load :=
            visual_odom_v2_config.loop_initial_load c;
          visual_odom_v2_config.enable_loop :=
            visual_odom_v2_config.enable_loop c |};
     visual_odom_v2.loop_markers := visual_odom_v2.loop_markers st;
     visual_odom_v2.final_path := visual_odom_v2.final_path st |}.

(** Appending the points of [src] to [dst] as they are, sub-cloud by
    sub-cloud: what a pass of the fusion loop amounts to when its matrix moves
    nothing. *)
Definition append_points (src dst : option PointCloud) : res (option PointCloud) :=
  match src with
  | None => Ok dst
  | Some s =>
      match dst with
      | None => Fault NullDeref
      | Some d => Ok (Some {| points := points d ++ points s; width := width d |})
      end
  end.

Definition append_frame (fr result : feature_frame) : res feature_frame :=
  vl ← append_points (line_features (velodyne_feature fr))
         (line_features (velodyne_feature result));
  vp ← append_points (plane_features (velodyne_feature fr))
         (plane_features (velodyne_feature result));
  lp ← append_points (plane_features (livox_feature fr))
         (plane_features (livox_feature result));
  ln ← append_points (non_features (livox_feature fr))
         (non_features (livox_feature result));
  Ok {| velodyne_feature :=
          {| line_features := vl; plane_features := vp;
             non_features := non_features (velodyne_feature result) |};
        livox_feature :=
          {| line_features := line_features (livox_feature result);
             plane_features := lp; non_features := ln |} |}.


(** * Theorems *)

Ltac nat_cases :=
  repeat match goal with
  | |- context [?a <=? ?b] => destruct (Nat.leb_spec a b)
  | |- context [?a <? ?b] => destruct (Nat.ltb_spec a b)
  | |- context [?a =? ?b] => destruct (Nat.eqb_spec a b)
  end.

(** Reduce the field reads of a ring written as a record, and nothing else. *)
Ltac ring_fields :=
  cbn [local_map.prev_frames local_map.prev_frame_location local_map.head
       local_map.counters local_map.local_map local_map.local_map_dirty fst snd] in *.

Lemma succ_mod_20 (h : nat) :
  h < 20 -> (h + 1) mod 20 = if h =? 19 then 0 else h + 1.
Proof.
  intros Hh. destruct (Nat.eqb_spec h 19) as [->|Hne]; [reflexivity|].
  apply Nat.mod_small. lia.
Qed.

(** ** The ring *)

Section ring.
Context `{Eigen}.

Lemma init_wf (junk : Matrix4d) : local_map.wf (local_map.init junk).
Proof.
  unfold local_map.wf, local_map.init, local_map.previous_frame_count; simpl.
  repeat split; lia.
Qed.

Lemma init_reachable (junk : Matrix4d) : reachable (local_map.init junk).
Proof. split; [apply init_wf|]. right. reflexivity. Qed.

Lemma push_wf frame transform (lm : local_map.t) :
  local_map.wf lm -> local_map.wf (local_map.push frame transform lm).
Proof.
  unfold local_map.wf, local_map.push, local_map.previous_frame_count; ring_fields.
  intros (Hf & Hl & Hh & Hc). rewrite !length_insert.
  repeat split; try assumption.
  - apply Nat.mod_upper_bound. lia.
  - nat_cases; lia.
Qed.

Lemma push_reachable frame transform (lm : local_map.t) :
  reachable lm -> reachable (local_map.push frame transform lm).
Proof.
  intros [Hwf Hc]. split; [by apply push_wf|].
  destruct Hwf as (_ & _ & Hh & Hle).
  unfold local_map.push, local_map.previous_frame_count in *; ring_fields.
  destruct Hc as [Hc|Hc].
  - left. rewrite Hc. reflexivity.
  - rewrite succ_mod_20 in Hc by lia. rewrite (succ_mod_20 (local_map.head lm)) by lia.
    destruct (Nat.eqb_spec (local_map.head lm) 19) as [E|E].
    + right. rewrite <- Hc. reflexivity.
    + destruct (Nat.ltb_spec (local_map.counters lm) 20) as [Hlt|Hge].
      * destruct (Nat.eq_dec (local_map.counters lm) 19) as [E19|N19].
        -- left. lia.
        -- right. rewrite succ_mod_20 by lia. nat_cases; lia.
      * left. lia.
Qed.

Lemma push_counters frame transform (lm : local_map.t) :
  local_map.counters lm <= 20 ->
  local_map.counters (local_map.push frame transform lm)
  = Nat.min (local_map.counters lm + 1) 20.
Proof.
  intros Hle. unfold local_map.push, local_map.previous_frame_count; ring_fields.
  nat_cases; lia.
Qed.

Lemma push_all_snoc items it (lm : local_map.t) :
  local_map.push_all (items ++ [it]) lm
  = local_map.push (fst it) (snd it) (local_map.push_all items lm).
Proof. unfold local_map.push_all. by rewrite fold_left_app. Qed.

Lemma push_all_reachable items (lm : local_map.t) :
  reachable lm -> reachable (local_map.push_all items lm).
Proof.
  induction items as [|it items IH] using rev_ind; intros Hr; [exact Hr|].
  rewrite push_all_snoc. apply push_reachable. by apply IH.
Qed.

Lemma push_all_counters items (lm : local_map.t) :
  local_map.wf lm ->
  local_map.counters (local_map.push_all items lm)
  = Nat.min (local_map.counters lm + length items) 20.
Proof.
  intros Hwf.
  induction items as [|it items IH] using rev_ind.
  - simpl. destruct Hwf as (_ & _ & _ & Hc).
    unfold local_map.previous_frame_count in Hc. lia.
  - rewrite push_all_snoc, push_counters, IH, length_app; simpl; lia.
Qed.

(** After a push the head entry is the pushed pair. *)
Lemma back_entry_push_head frame transform (lm : local_map.t) :
  local_map.wf lm ->
  back_entry (local_map.push frame transform lm) 1 = Some (frame, transform).
Proof.
  intros (Hf & Hl & Hh & Hc). unfold local_map.previous_frame_count in *.
  unfold back_entry, local_map.slot_of_back, local_map.push; ring_fields.
  unfold local_map.previous_frame_count.
  assert (Hm : (local_map.head lm + 1) mod 20 < 20) by (apply Nat.mod_upper_bound; lia).
  replace (1 <=? (local_map.head lm + 1) mod 20 + 1) with true
    by (symmetry; apply Nat.leb_le; lia).
  replace ((local_map.head lm + 1) mod 20 + 1 - 1) with ((local_map.head lm + 1) mod 20) by lia.
  rewrite !list_lookup_insert_eq by lia. reflexivity.
Qed.

(** After a push, the entry [S b] steps back is the entry that was [b] steps
    back before. *)
Lemma back_entry_push_older frame transform (lm : local_map.t) (b : nat) :
  reachable lm -> 1 <= b <= Nat.min (local_map.counters lm) 19 ->
  back_entry (local_map.push frame transform lm) (S b) = back_entry lm b.
Proof.
  intros [(Hf & Hl & Hh & Hc) Hr] Hb. unfold local_map.previous_frame_count in *.
  unfold back_entry.
  assert (Hslot : local_map.slot_of_back (local_map.push frame transform lm) (S b)
                  = local_map.slot_of_back lm b
                  /\ local_map.slot_of_back lm b <> (local_map.head lm + 1) mod 20).
  { unfold local_map.slot_of_back, local_map.push; ring_fields.
    unfold local_map.previous_frame_count.
    rewrite succ_mod_20 in Hr by lia. rewrite !succ_mod_20 by lia.
    destruct Hr as [Hr|Hr]; revert Hr; nat_cases; lia. }
  destruct Hslot as [-> Hne].
  unfold local_map.push; ring_fields. unfold local_map.previous_frame_count.
  rewrite !list_lookup_insert_ne by (intros E; apply Hne; symmetry; exact E).
  reflexivity.
Qed.

Lemma entries_backwards_push frame transform (lm : local_map.t) :
  reachable lm ->
  entries_backwards (local_map.push frame transform lm)
  = Some (frame, transform) :: take 19 (entries_backwards lm).
Proof.
  intros Hr. pose proof Hr as [Hwf _]. pose proof Hwf as (_ & _ & _ & Hc).
  unfold local_map.previous_frame_count in Hc.
  unfold entries_backwards.
  rewrite push_counters by exact Hc.
  replace (Nat.min (local_map.counters lm + 1) 20)
    with (S (Nat.min (local_map.counters lm) 19)) by lia.
  rewrite <- cons_seq. simpl map.
  rewrite back_entry_push_head by exact Hwf. f_equal.
  rewrite <- seq_shift, map_map.
  rewrite <- (fmap_take (back_entry lm)), take_seq.
  replace (19 `min` local_map.counters lm) with (Nat.min (local_map.counters lm) 19) by lia.
  apply map_ext_in. intros b Hin. apply in_seq in Hin.
  apply back_entry_push_older; [exact Hr|lia].
Qed.

Lemma entries_backwards_push_all items (lm : local_map.t) :
  reachable lm -> local_map.counters lm = 0 ->
  entries_backwards (local_map.push_all items lm) = map Some (take 20 (rev items)).
Proof.
  intros Hr H0.
  induction items as [|it items IH] using rev_ind.
  - unfold entries_backwards. simpl. rewrite H0. reflexivity.
  - rewrite push_all_snoc, entries_backwards_push by (by apply push_all_reachable).
    rewrite IH, rev_unit. destruct it as [f m]. simpl.
    f_equal. rewrite <- (fmap_take Some), take_take. reflexivity.
Qed.

(** [tr] reads the transform of the head entry. *)
Lemma tr_back_entry (lm : local_map.t) f m :
  local_map.counters lm <> 0 -> back_entry lm 1 = Some (f, m) ->
  local_map.tr lm = Ok m.
Proof.
  unfold back_entry, local_map.tr, local_map.slot_of_back. intros Hc.
  destruct (Nat.eqb_spec (local_map.counters lm) 0) as [E|_]; [contradiction|].
  replace (1 <=? local_map.head lm + 1) with true by (symmetry; apply Nat.leb_le; lia).
  replace (local_map.head lm + 1 - 1) with (local_map.head lm) by lia.
  destruct (local_map.prev_frames lm !! local_map.head lm);
    destruct (local_map.prev_frame_location lm !! local_map.head lm); congruence.
Qed.

(** C5: after [k] pushes into the empty 20-slot ring, [counters] is
    [min k 20], the head entry (back index 1, the one [tr] reads) is the most
    recent push, and the entries read from the head backwards are the last
    [min k 20] pushes, newest first.  With 25 pushes these are pushes 25 down
    to 6, and [counters] is 20. *)
Theorem ring_after_pushes (items : list (feature_frame * Matrix4d))
    (lm : local_map.t) :
  local_map.wf lm ->
  local_map.head lm = local_map.previous_frame_count - 1 ->
  local_map.counters lm = 0 ->
  let lm' := local_map.push_all items lm in
  local_map.counters lm' = Nat.min (length items) 20 /\
  (forall it, last items = Some it ->
     back_entry lm' 1 = Some it /\ local_map.tr lm' = Ok (snd it)) /\
  entries_backwards lm' = map Some (take 20 (rev items)) /\
  (length items = 25 ->
     local_map.counters lm' = 20 /\
     entries_backwards lm' = map Some (rev (drop 5 items))).
Proof.
  intros Hwf Hh H0 lm'.
  assert (Hr : reachable lm).
  { split; [exact Hwf|]. right. rewrite Hh, H0. reflexivity. }
  assert (Hcnt : local_map.counters lm' = Nat.min (length items) 20).
  { subst lm'. rewrite push_all_counters by exact Hwf. rewrite H0. reflexivity. }
  assert (Hent : entries_backwards lm' = map Some (take 20 (rev items))).
  { subst lm'. by apply entries_backwards_push_all. }
  split; [exact Hcnt|]. split; [|split; [exact Hent|]].
  - intros it Hlast.
    destruct items as [|x items] using rev_ind; [discriminate|].
    rewrite last_snoc in Hlast. injection Hlast as <-.
    assert (Hb : back_entry lm' 1 = Some x).
    { subst lm'. rewrite push_all_snoc. destruct x as [f m]; simpl.
      apply back_entry_push_head.
      by destruct (push_all_reachable items lm Hr). }
    split; [exact Hb|]. destruct x as [f m].
    apply (tr_back_entry lm' f m); [|exact Hb].
    rewrite Hcnt, length_app; simpl. lia.
  - intros H25. split; [rewrite Hcnt, H25; reflexivity|].
    rewrite Hent. f_equal.
    rewrite <- (rev_involutive (take 20 (rev items))). f_equal.
    rewrite <- (firstn_skipn 5 items) at 1.
    rewrite rev_app_distr, take_app_length'; [apply rev_involutive|].
    rewrite length_rev, length_drop. lia.
Qed.

End ring.

(** A concrete instance: 25 pushes into a fresh ring. *)
Lemma ring_after_pushes_witness :
  let items := map (fun k => (Toy.frame_of 1 (inject_Z (Z.of_nat k)), Z.of_nat k))
                   (seq 1 25) in
  let lm' := @local_map.push_all Toy.eigen items (@local_map.init Toy.eigen 0%Z) in
  local_map.counters lm' = 20 /\
  entries_backwards lm' = map Some (rev (drop 5 items)).
Proof.
  intros items lm'.
  pose proof (@ring_after_pushes Toy.eigen items (@local_map.init Toy.eigen 0%Z)
                (@init_wf Toy.eigen 0%Z) eq_refl eq_refl) as (_ & _ & _ & H25).
  apply H25. reflexivity.
Defined.

(** ** [set] *)

Section set_facts.
Context `{Eigen}.

Lemma slot_of_back_lt (lm : local_map.t) (b : nat) :
  local_map.wf lm -> 1 <= b <= local_map.counters lm ->
  local_map.slot_of_back lm b < 20.
Proof.
  intros (_ & _ & Hh & Hc) Hb. unfold local_map.previous_frame_count in *.
  unfold local_map.slot_of_back. nat_cases; lia.
Qed.

Lemma slot_of_back_inj (lm : local_map.t) (b1 b2 : nat) :
  1 <= b1 <= local_map.counters lm -> 1 <= b2 <= local_map.counters lm ->
  local_map.slot_of_back lm b1 = local_map.slot_of_back lm b2 -> b1 = b2.
Proof.
  unfold local_map.slot_of_back. intros H1 H2. nat_cases; lia.
Qed.

(** What a successful [set] changes: one slot of [prev_frame_location], and
    nothing else -- in particular not [local_map_dirty]. *)
Lemma set_inv (b : nat) (m : Matrix4d) (lm lm' : local_map.t) :
  local_map.set b m lm = Ok lm' ->
  same_frames lm lm' /\
  local_map.prev_frame_location lm'
  = <[local_map.slot_of_back lm b := m]> (local_map.prev_frame_location lm).
Proof.
  unfold local_map.set.
  destruct (b <=? local_map.counters lm); [|discriminate].
  destruct (_ <? _); [|discriminate].
  intros [= <-]. unfold same_frames; ring_fields.
  rewrite length_insert. repeat split.
Qed.

Lemma set_ok (b : nat) (m : Matrix4d) (lm : local_map.t) :
  local_map.wf lm -> 1 <= b <= local_map.counters lm ->
  exists lm', local_map.set b m lm = Ok lm'.
Proof.
  intros Hwf Hb. pose proof (slot_of_back_lt lm b Hwf Hb) as Hlt.
  destruct Hwf as (_ & Hl & _ & _). unfold local_map.previous_frame_count in Hl.
  unfold local_map.set.
  destruct (Nat.leb_spec b (local_map.counters lm)); [|lia].
  destruct (Nat.ltb_spec (local_map.slot_of_back lm b)
              (length (local_map.prev_frame_location lm))); [|lia].
  eexists; reflexivity.
Qed.

Lemma same_frames_wf (lm lm' : local_map.t) :
  same_frames lm lm' -> local_map.wf lm -> local_map.wf lm'.
Proof.
  intros (Hf & Hh & Hc & _ & _ & Hl) (Wf & Wl & Wh & Wc).
  unfold local_map.wf. rewrite Hf, Hh, Hc, Hl. repeat split; assumption.
Qed.

Lemma same_frames_refl (lm : local_map.t) : same_frames lm lm.
Proof. unfold same_frames. repeat split. Qed.

Lemma same_frames_trans (lm1 lm2 lm3 : local_map.t) :
  same_frames lm1 lm2 -> same_frames lm2 lm3 -> same_frames lm1 lm3.
Proof.
  intros (A1 & A2 & A3 & A4 & A5 & A6) (B1 & B2 & B3 & B4 & B5 & B6).
  unfold same_frames. repeat split; congruence.
Qed.

Lemma same_frames_slot (lm lm' : local_map.t) (b : nat) :
  same_frames lm lm' -> local_map.slot_of_back lm' b = local_map.slot_of_back lm b.
Proof.
  intros (_ & Hh & Hc & _). unfold local_map.slot_of_back. by rewrite Hh, Hc.
Qed.

(** A clean cache stays clean across [set], so the next read returns the map
    fused before the edit. *)
Lemma get_local_map_after_set `{!Comm} (b : nat) (m : Matrix4d)
    (lm lm' : local_map.t) :
  local_map.local_map_dirty lm = false ->
  local_map.set b m lm = Ok lm' ->
  local_map.get_local_map lm' = Ok (local_map.local_map lm, lm').
Proof.
  intros Hclean Hset. apply set_inv in Hset as [(_ & _ & _ & Hc & Hd & _) _].
  unfold local_map.get_local_map. by rewrite Hd, Hclean, Hc.
Qed.

(** [push], in contrast, marks the cache dirty. *)
Lemma push_invalidates frame (m : Matrix4d) (lm : local_map.t) :
  local_map.local_map_dirty (local_map.push frame m lm) = true.
Proof. reflexivity. Qed.

End set_facts.


(** ** The loop adapter *)

Section loop_adapter.
Context `{Comm} `{!Loop} `{!Residual}.

(** The [set] loop at 331-333 over back indices within [1..counters]: it
    succeeds, slot [slot_of_back i] ends up holding [btr(i)] for every index
    listed, and every other slot keeps its transform. *)
Lemma set_from_loop_spec (lp : loop_var) (indices : list nat) :
  forall lm : local_map.t,
  local_map.wf lm ->
  (forall i, i ∈ indices -> 1 <= i <= local_map.counters lm) ->
  exists lm',
    visual_odom_v2.set_from_loop lp indices lm = Ok lm' /\
    same_frames lm lm' /\
    (forall i, i ∈ indices ->
       local_map.prev_frame_location lm' !! local_map.slot_of_back lm i
       = Some (loop_var_btr lp i)) /\
    (forall s, (forall i, i ∈ indices -> local_map.slot_of_back lm i <> s) ->
       local_map.prev_frame_location lm' !! s
       = local_map.prev_frame_location lm !! s).
Proof.
  induction indices as [|i rest IH]; intros lm Hwf Hrange.
  - exists lm. split; [reflexivity|]. split; [apply same_frames_refl|].
    split; [intros i Hi; by apply elem_of_nil in Hi|]. reflexivity.
  - assert (Hi : 1 <= i <= local_map.counters lm) by (apply Hrange; left).
    destruct (set_ok i (loop_var_btr lp i) lm Hwf Hi) as [lm1 Hset].
    pose proof (set_inv _ _ _ _ Hset) as [Hsame1 Hloc1].
    pose proof (same_frames_wf _ _ Hsame1 Hwf) as Hwf1.
    assert (Hc1 : local_map.counters lm1 = local_map.counters lm)
      by (destruct Hsame1 as (_ & _ & ? & _); assumption).
    destruct (IH lm1 Hwf1) as (lm' & Hrun & Hsame & Hin & Hout).
    { intros j Hj. rewrite Hc1. apply Hrange. by right. }
    exists lm'. split; [simpl; rewrite Hset; exact Hrun|].
    split; [eapply same_frames_trans; eassumption|].
    assert (Hslot : forall j, local_map.slot_of_back lm1 j = local_map.slot_of_back lm j)
      by (intros j; by apply same_frames_slot).
    assert (Hlen : local_map.slot_of_back lm i
                   < length (local_map.prev_frame_location lm)).
    { pose proof Hwf as (_ & Hl & _ & _).
      unfold local_map.previous_frame_count in Hl. rewrite Hl.
      by apply slot_of_back_lt. }
    split.
    + intros j Hj. destruct (decide (j ∈ rest)) as [Hr|Hnr].
      * rewrite <- Hslot. by apply Hin.
      * apply elem_of_cons in Hj as [->|Hj]; [|contradiction].
        rewrite Hout, Hloc1.
        -- by apply list_lookup_insert_eq.
        -- intros j Hj E. rewrite Hslot in E.
           apply slot_of_back_inj in E; [subst; contradiction| |exact Hi].
           apply Hrange. by right.
    + intros s Hs. rewrite Hout, Hloc1.
      * apply list_lookup_insert_ne. apply Hs. left.
      * intros j Hj. rewrite Hslot. apply Hs. by right.
Qed.

(** The trajectory loop at 335-338. *)
Lemma rewrite_poses_from (lp : loop_var) (n : nat) :
  forall (a : nat) (ps : list PoseStamped) (j : nat),
  fold_left (visual_odom_v2.rewrite_pose lp) (seq a n) ps !! j
  = if (a <=? j) && (j <? a + n)
    then (fun p => {| stamp := stamp p; pose := to_ros_pose (loop_var_tr lp j) |})
           <$> ps !! j
    else ps !! j.
Proof.
  induction n as [|n IH]; intros a ps j.
  - simpl. replace (j <? a + 0) with (j <? a) by (f_equal; lia).
    nat_cases; try reflexivity; lia.
  - simpl. rewrite IH. unfold visual_odom_v2.rewrite_pose.
    destruct (Nat.eq_dec a j) as [->|Hne].
    + rewrite list_lookup_alter_eq. nat_cases; try reflexivity; lia.
    + rewrite list_lookup_alter_ne by exact Hne.
      nat_cases; try reflexivity; lia.
Qed.

Lemma rewrite_poses_length (lp : loop_var) (k : nat) (ps : list PoseStamped) :
  length (visual_odom_v2.rewrite_poses lp k ps) = length ps.
Proof.
  unfold visual_odom_v2.rewrite_poses.
  generalize (seq k (length ps - k)). intros l. revert ps.
  induction l as [|i l IH]; intros ps; [reflexivity|].
  simpl. rewrite IH. unfold visual_odom_v2.rewrite_pose. apply length_alter.
Qed.

Lemma rewrite_poses_lookup (lp : loop_var) (k : nat) (ps : list PoseStamped)
    (j : nat) (p : PoseStamped) :
  ps !! j = Some p ->
  visual_odom_v2.rewrite_poses lp k ps !! j
  = Some (if k <=? j
          then {| stamp := stamp p; pose := to_ros_pose (loop_var_tr lp j) |}
          else p).
Proof.
  intros Hj. pose proof (lookup_lt_Some _ _ _ Hj) as Hlt.
  unfold visual_odom_v2.rewrite_poses. rewrite rewrite_poses_from, Hj.
  nat_cases; try reflexivity; lia.
Qed.

(** The adapter on a well-formed ring, for either answer of the loop module. *)
Lemma loop_detection_spec (st : visual_odom_v2.t) (cloud : PointCloud)
    (frame : feature_objects) (transform : Matrix4d) (k : nat) (lp : loop_var) :
  local_map.wf (visual_odom_v2.local_maps st) ->
  loop_var_loop_detection (visual_odom_v2.loop st) cloud frame transform = (k, lp) ->
  exists st',
    visual_odom_v2.loop_detection cloud frame transform st
    = Ok (if k =? 0 then transform else loop_var_btr lp 1, st') /\
    (k = 0 ->
       visual_odom_v2.local_maps st' = visual_odom_v2.local_maps st /\
       visual_odom_v2.final_path st' = visual_odom_v2.final_path st) /\
    (0 < k ->
       visual_odom_v2.set_from_loop lp
         (seq 1 (local_map.counters (visual_odom_v2.local_maps st)))
         (visual_odom_v2.local_maps st)
       = Ok (visual_odom_v2.local_maps st') /\
       same_frames (visual_odom_v2.local_maps st) (visual_odom_v2.local_maps st') /\
       (forall i, 1 <= i <= local_map.counters (visual_odom_v2.local_maps st) ->
          local_map.prev_frame_location (visual_odom_v2.local_maps st')
            !! local_map.slot_of_back (visual_odom_v2.local_maps st) i
          = Some (loop_var_btr lp i)) /\
       length (poses (visual_odom_v2.final_path st'))
       = length (poses (visual_odom_v2.final_path st)) /\
       (forall j p, poses (visual_odom_v2.final_path st) !! j = Some p ->
          poses (visual_odom_v2.final_path st') !! j
          = Some (if k <=? j
                  then {| stamp := stamp p; pose := to_ros_pose (loop_var_tr lp j) |}
                  else p))).
Proof.
  intros Hwf Hdet. unfold visual_odom_v2.loop_detection. rewrite Hdet.
  destruct (Nat.eqb_spec k 0) as [->|Hk].
  - eexists. split; [reflexivity|]. split; [|lia].
    intros _. split; reflexivity.
  - destruct (set_from_loop_spec lp
                (seq 1 (local_map.counters (visual_odom_v2.local_maps st)))
                (visual_odom_v2.local_maps st) Hwf)
      as (lm' & Hrun & Hsame & Hin & _).
    { intros i Hi. apply elem_of_seq in Hi. lia. }
    cbn [visual_odom_v2.with_loop visual_odom_v2.local_maps local_map.size].
    unfold local_map.size. rewrite Hrun. cbn [mbind res_bind].
    eexists. split; [reflexivity|]. split; [lia|]. intros _.
    cbn [visual_odom_v2.local_maps visual_odom_v2.final_path
         visual_odom_v2.with_loop_markers visual_odom_v2.with_final_path
         visual_odom_v2.with_local_maps visual_odom_v2.with_loop poses].
    split; [reflexivity|]. split; [exact Hsame|].
    split; [intros i Hi; apply Hin, elem_of_seq; lia|].
    split; [apply rewrite_poses_length|].
    intros j p Hj. by apply rewrite_poses_lookup.
Qed.

(** C9: the loop adapter.  When the loop module returns 0 the input transform
    comes back and neither the ring nor the trajectory changes.  When it
    returns [k > 0], the adapter runs [set(i, btr(i))] for [i = 1..counters]
    -- so the slot of every back index [i] holds [btr(i)], and frames, head
    and count are as before --, every trajectory pose at an index [j >= k] is
    replaced by [to_ros_pose(tr(j))] with its stamp kept, poses below [k] are
    untouched, and [btr(1)] is returned. *)
Theorem loop_detection_effect (st : visual_odom_v2.t) (cloud : PointCloud)
    (frame : feature_objects) (transform : Matrix4d) (k : nat) (lp : loop_var) :
  local_map.wf (visual_odom_v2.local_maps st) ->
  loop_var_loop_detection (visual_odom_v2.loop st) cloud frame transform = (k, lp) ->
  exists st',
    visual_odom_v2.loop_detection cloud frame transform st
    = Ok (if k =? 0 then transform else loop_var_btr lp 1, st') /\
    (k = 0 ->
       visual_odom_v2.local_maps st' = visual_odom_v2.local_maps st /\
       visual_odom_v2.final_path st' = visual_odom_v2.final_path st) /\
    (0 < k ->
       visual_odom_v2.set_from_loop lp
         (seq 1 (local_map.counters (visual_odom_v2.local_maps st)))
         (visual_odom_v2.local_maps st)
       = Ok (visual_odom_v2.local_maps st') /\
       same_frames (visual_odom_v2.local_maps st) (visual_odom_v2.local_maps st') /\
       (forall i, 1 <= i <= local_map.counters (visual_odom_v2.local_maps st) ->
          local_map.prev_frame_location (visual_odom_v2.local_maps st')
            !! local_map.slot_of_back (visual_odom_v2.local_maps st) i
          = Some (loop_var_btr lp i)) /\
       length (poses (visual_odom_v2.final_path st'))
       = length (poses (visual_odom_v2.final_path st)) /\
       (forall j p, poses (visual_odom_v2.final_path st) !! j = Some p ->
          poses (visual_odom_v2.final_path st') !! j
          = Some (if k <=? j
                  then {| stamp := stamp p; pose := to_ros_pose (loop_var_tr lp j) |}
                  else p))).
Proof. exact (loop_detection_spec st cloud frame transform k lp). Qed.

End loop_adapter.

(** ** The odometry step *)

Lemma Qltb_lt (a b : Q) : Qltb a b = true <-> (a < b)%Q.
Proof.
  unfold Qltb. rewrite negb_true_iff, <- not_true_iff_false, Qle_bool_iff.
  split; [apply Qnot_le_lt|apply Qlt_not_le].
Qed.

Lemma Qltb_ge (a b : Q) : Qltb a b = false <-> (b <= a)%Q.
Proof.
  unfold Qltb. rewrite negb_false_iff. apply Qle_bool_iff.
Qed.

Section odometry.
Context `{Comm} `{!Loop} `{!Residual}.

Lemma get_local_map_ring (lm lm' : local_map.t) (M : feature_frame) :
  local_map.get_local_map lm = Ok (M, lm') -> same_ring lm lm'.
Proof.
  unfold local_map.get_local_map, same_ring.
  destruct (local_map.local_map_dirty lm).
  - destruct (local_map.update_local_map lm); [|discriminate].
    cbn [mbind res_bind]. intros [= _ <-]. ring_fields. repeat split.
  - intros [= _ <-]. repeat split.
Qed.

Lemma same_ring_wf (lm lm' : local_map.t) :
  same_ring lm lm' -> local_map.wf lm -> local_map.wf lm'.
Proof.
  intros (Hf & Hl & Hh & Hc). unfold local_map.wf. by rewrite Hf, Hl, Hh, Hc.
Qed.

Lemma same_ring_tr (lm lm' : local_map.t) :
  same_ring lm lm' -> local_map.tr lm' = local_map.tr lm.
Proof.
  intros (Hf & Hl & Hh & Hc). unfold local_map.tr. by rewrite Hl, Hh, Hc.
Qed.

Lemma tr_ok (lm : local_map.t) :
  local_map.wf lm -> local_map.counters lm <> 0 ->
  exists m, local_map.tr lm = Ok m.
Proof.
  intros (_ & Hl & Hh & _) Hc. unfold local_map.tr.
  destruct (Nat.eqb_spec (local_map.counters lm) 0); [contradiction|].
  destruct (lookup_lt_is_Some_2 (local_map.prev_frame_location lm) (local_map.head lm))
    as [m Hm]; [by rewrite Hl|].
  rewrite Hm. by exists m.
Qed.

(** The gate as the code computes it against the two sides of the claim. *)
Lemma too_small_true (st : visual_odom_v2.t) (Tr : Transform) :
  local_map.empty (visual_odom_v2.local_maps st) = false ->
  all_below (visual_odom_v2.config st) Tr ->
  visual_odom_v2.too_small st Tr = true.
Proof.
  intros He (Hx & Hy & Hz & Hr & Hp & Hw). unfold visual_odom_v2.too_small.
  rewrite He. apply Qltb_lt in Hx, Hy, Hz, Hr, Hp, Hw.
  by rewrite Hx, Hy, Hz, Hr, Hp, Hw.
Qed.

Lemma too_small_false (st : visual_odom_v2.t) (Tr : Transform) :
  some_at_or_above (visual_odom_v2.config st) Tr ->
  visual_odom_v2.too_small st Tr = false.
Proof.
  unfold visual_odom_v2.too_small.
  intros [Hc|[Hc|[Hc|[Hc|[Hc|Hc]]]]]; apply Qltb_ge in Hc; rewrite Hc;
    rewrite ?andb_false_r; reflexivity.
Qed.

(** What [update_current_frame] does on a non-empty ring when it accepts. *)
Lemma update_accepts_nonempty (st st1 : visual_odom_v2.t) frame (Tr : Transform) :
  local_map.empty (visual_odom_v2.local_maps st) = false ->
  visual_odom_v2.update_current_frame frame st = Ok (ok Tr, st1) ->
  same_ring (visual_odom_v2.local_maps st) (visual_odom_v2.local_maps st1) /\
  visual_odom_v2.config st1 = visual_odom_v2.config st /\
  visual_odom_v2.loop st1 = visual_odom_v2.loop st /\
  visual_odom_v2.final_path st1 = visual_odom_v2.final_path st /\
  visual_odom_v2.loop_markers st1 = visual_odom_v2.loop_markers st.
Proof.
  intros He. unfold visual_odom_v2.update_current_frame.
  destruct (negb (feature_ok (velodyne_feature frame))); [discriminate|].
  destruct (negb (feature_ok (livox_feature frame))); [discriminate|].
  rewrite He.
  destruct (local_map.get_local_map (visual_odom_v2.local_maps st))
    as [[M lm]|] eqn:Hg; [|discriminate].
  cbn [mbind res_bind]. intros [= _ <-].
  cbn [visual_odom_v2.with_next_initial_guess visual_odom_v2.with_local_maps
       visual_odom_v2.local_maps visual_odom_v2.config visual_odom_v2.loop
       visual_odom_v2.final_path visual_odom_v2.loop_markers].
  split; [by eapply get_local_map_ring|]. repeat split.
Qed.

(** The promotion path of [mapping] (382-397) from a state [st1] whose ring is
    well formed: it succeeds, the count grows by one up to capacity and the
    trajectory by one pose. *)
Lemma promote_effect (st1 : visual_odom_v2.t) cloud frame (time : ros_Time)
    (M : Matrix4d) :
  local_map.wf (visual_odom_v2.local_maps st1) ->
  let pushed :=
    visual_odom_v2.with_loop_markers
      (visual_odom_v2.with_final_path
         (visual_odom_v2.with_local_maps st1
            (local_map.push frame M (visual_odom_v2.local_maps st1)))
         {| path_stamp := time;
            poses := poses (visual_odom_v2.final_path st1)
                     ++ [ {| stamp := time; pose := to_ros_pose M |} ] |})
      {| marker_stamp := time;
         marker_points := marker_points (visual_odom_v2.loop_markers st1) |} in
  exists M' st',
    (if visual_odom_v2_config.enable_loop (visual_odom_v2.config pushed)
     then '(M', st) ← visual_odom_v2.loop_detection cloud (velodyne_feature frame) M pushed;
          Ok (Some M', st)
     else Ok (Some M, pushed)) = Ok (Some M', st') /\
    local_map.wf (visual_odom_v2.local_maps st') /\
    local_map.counters (visual_odom_v2.local_maps st')
    = Nat.min (local_map.counters (visual_odom_v2.local_maps st1) + 1) 20 /\
    length (poses (visual_odom_v2.final_path st'))
    = length (poses (visual_odom_v2.final_path st1)) + 1.
Proof.
  intros Hwf pushed.
  assert (Hwfp : local_map.wf (visual_odom_v2.local_maps pushed))
    by (apply push_wf; exact Hwf).
  assert (Hcp : local_map.counters (visual_odom_v2.local_maps pushed)
                = Nat.min (local_map.counters (visual_odom_v2.local_maps st1) + 1) 20).
  { apply push_counters. destruct Hwf as (_ & _ & _ & Hc). exact Hc. }
  assert (Hlp : length (poses (visual_odom_v2.final_path pushed))
                = length (poses (visual_odom_v2.final_path st1)) + 1).
  { subst pushed. cbn [visual_odom_v2.final_path visual_odom_v2.with_loop_markers
                       visual_odom_v2.with_final_path poses].
    rewrite length_app. reflexivity. }
  destruct (visual_odom_v2_config.enable_loop (visual_odom_v2.config pushed)).
  - destruct (loop_var_loop_detection (visual_odom_v2.loop pushed) cloud
                (velodyne_feature frame) M) as [k lp] eqn:Hdet.
    destruct (loop_detection_spec pushed cloud (velodyne_feature frame) M k lp
                Hwfp Hdet) as (st' & Hrun & Hzero & Hpos).
    rewrite Hrun. cbn [mbind res_bind]. do 2 eexists. split; [reflexivity|].
    destruct (Nat.eq_dec k 0) as [Hk|Hk].
    + destruct (Hzero Hk) as [Hlm Hfp]. rewrite Hlm, Hfp.
      split; [exact Hwfp|]. split; [exact Hcp|exact Hlp].
    + destruct Hpos as (_ & Hsame & _ & Hlen & _); [lia|].
      split; [by eapply same_frames_wf|].
      destruct Hsame as (_ & _ & Hc & _). rewrite Hc, Hlen.
      split; [exact Hcp|exact Hlp].
  - do 2 eexists. split; [reflexivity|].
    split; [exact Hwfp|]. split; [exact Hcp|exact Hlp].
Qed.

(** [mapping] on a frame [update_current_frame] rejects. *)
Lemma mapping_rejects (st : visual_odom_v2.t)
    (cloud : PointCloud) (frame : feature_frame) (time : ros_Time) :
  feature_ok (velodyne_feature frame) = false \/
  feature_ok (livox_feature frame) = false ->
  visual_odom_v2.mapping cloud frame time st = Ok (None, st).
Proof.
  intros Hbad. unfold visual_odom_v2.mapping, visual_odom_v2.update_current_frame.
  destruct (feature_ok (velodyne_feature frame)); [|reflexivity].
  destruct Hbad as [Hv|Hl]; [discriminate|]. rewrite Hl. reflexivity.
Qed.

(** C10: a frame that fails [feature_ok] for either sensor leaves the whole
    odometry state as it was, and [mapping] returns no pose. *)
Theorem rejected_frame_changes_nothing (st : visual_odom_v2.t)
    (cloud : PointCloud) (frame : feature_frame) (time : ros_Time) :
  feature_ok (velodyne_feature frame) = false \/
  feature_ok (livox_feature frame) = false ->
  visual_odom_v2.mapping cloud frame time st = Ok (None, st).
Proof. exact (mapping_rejects st cloud frame time). Qed.

(** C4, amended: for a frame accepted while the ring is not empty.  If all six
    components of [Tr] are below their thresholds in absolute value, [mapping]
    returns [tr() * to_eigen(Tr)] and the ring (head, count, slots) and the
    trajectory are as before.  If one component is at or above its threshold,
    the count grows by one up to capacity and the trajectory by one pose. *)
Theorem keyframe_gate (st st1 : visual_odom_v2.t) (cloud : PointCloud)
    (frame : feature_frame) (time : ros_Time) (Tr : Transform) :
  local_map.wf (visual_odom_v2.local_maps st) ->
  local_map.empty (visual_odom_v2.local_maps st) = false ->
  visual_odom_v2.update_current_frame frame st = Ok (ok Tr, st1) ->
  exists head_tr,
    local_map.tr (visual_odom_v2.local_maps st) = Ok head_tr /\
    (all_below (visual_odom_v2.config st) Tr ->
       exists st',
         visual_odom_v2.mapping cloud frame time st
         = Ok (Some (mat_mul head_tr (to_eigen Tr)), st') /\
         same_ring (visual_odom_v2.local_maps st) (visual_odom_v2.local_maps st') /\
         visual_odom_v2.final_path st' = visual_odom_v2.final_path st) /\
    (some_at_or_above (visual_odom_v2.config st) Tr ->
       exists M' st',
         visual_odom_v2.mapping cloud frame time st = Ok (Some M', st') /\
         local_map.counters (visual_odom_v2.local_maps st')
         = Nat.min (local_map.counters (visual_odom_v2.local_maps st) + 1) 20 /\
         length (poses (visual_odom_v2.final_path st'))
         = length (poses (visual_odom_v2.final_path st)) + 1).
Proof.
  intros Hwf He Hupd.
  destruct (update_accepts_nonempty st st1 frame Tr He Hupd)
    as (Hring & Hcfg & _ & Hpath & _).
  assert (Hne : local_map.counters (visual_odom_v2.local_maps st) <> 0).
  { unfold local_map.empty in He. by apply Nat.eqb_neq. }
  destruct (tr_ok _ Hwf Hne) as [head_tr Htr].
  exists head_tr. split; [exact Htr|].
  assert (Htr1 : local_map.tr (visual_odom_v2.local_maps st1) = Ok head_tr)
    by (rewrite (same_ring_tr _ _ Hring); exact Htr).
  assert (He1 : local_map.empty (visual_odom_v2.local_maps st1) = false).
  { unfold local_map.empty in *. destruct Hring as (_ & _ & _ & Hc). by rewrite Hc. }
  unfold visual_odom_v2.mapping. rewrite Hupd. cbn [mbind res_bind].
  rewrite Htr1. cbn [mbind res_bind].
  split.
  - intros Hbelow. rewrite <- Hcfg in Hbelow.
    rewrite (too_small_true st1 Tr He1 Hbelow).
    exists st1. split; [reflexivity|]. by split.
  - intros Habove. rewrite <- Hcfg in Habove.
    rewrite (too_small_false st1 Tr Habove).
    destruct (promote_effect st1 cloud frame time (mat_mul head_tr (to_eigen Tr))
                (same_ring_wf _ _ Hring Hwf)) as (M' & st' & Hrun & _ & Hc & Hl).
    exists M', st'. split; [exact Hrun|].
    destruct Hring as (_ & _ & _ & Hc1). rewrite Hc, Hl, Hc1, Hpath. by split.
Qed.

End odometry.

(** ** The first frame and the trajectory *)

Section first_frame.
Context `{Comm} `{!Loop} `{!Residual}.

(** The first accepted frame, with positive thresholds: [update_current_frame]
    pushes it at the identity, the gate then sees a zero [Tr] on a ring that is
    no longer empty, and [mapping] returns before the trajectory is written. *)
Lemma first_frame_effect (st : visual_odom_v2.t) (cloud : PointCloud)
    (frame : feature_frame) (time : ros_Time) :
  local_map.wf (visual_odom_v2.local_maps st) ->
  local_map.empty (visual_odom_v2.local_maps st) = true ->
  feature_ok (velodyne_feature frame) = true ->
  feature_ok (livox_feature frame) = true ->
  all_below (visual_odom_v2.config st) Transform_zero ->
  exists st',
    visual_odom_v2.mapping cloud frame time st
    = Ok (Some (mat_mul Identity (to_eigen Transform_zero)), st') /\
    local_map.wf (visual_odom_v2.local_maps st') /\
    local_map.counters (visual_odom_v2.local_maps st') = 1 /\
    back_entry (visual_odom_v2.local_maps st') 1 = Some (frame, Identity) /\
    visual_odom_v2.final_path st' = visual_odom_v2.final_path st /\
    visual_odom_v2.config st' = visual_odom_v2.config st.
Proof.
  intros Hwf He Hv Hl Hpos.
  set (st1 := visual_odom_v2.with_local_maps st
                (local_map.push frame Identity (visual_odom_v2.local_maps st))).
  assert (Hc0 : local_map.counters (visual_odom_v2.local_maps st) = 0)
    by (unfold local_map.empty in He; by apply Nat.eqb_eq).
  assert (Hc1 : local_map.counters (visual_odom_v2.local_maps st1) = 1).
  { subst st1. cbn [visual_odom_v2.local_maps visual_odom_v2.with_local_maps].
    rewrite push_counters by lia. rewrite Hc0. reflexivity. }
  assert (Hb1 : back_entry (visual_odom_v2.local_maps st1) 1 = Some (frame, Identity))
    by (apply back_entry_push_head; exact Hwf).
  assert (Htr : local_map.tr (visual_odom_v2.local_maps st1) = Ok Identity).
  { apply (tr_back_entry _ frame); [lia|exact Hb1]. }
  exists st1.
  split; [|split; [by apply push_wf|]; repeat split; assumption].
  unfold visual_odom_v2.mapping, visual_odom_v2.update_current_frame.
  rewrite Hv, Hl, He. cbn [negb mbind res_bind]. fold st1.
  rewrite Htr. cbn [mbind res_bind].
  rewrite too_small_true; [reflexivity| |exact Hpos].
  unfold local_map.empty. rewrite Hc1. reflexivity.
Qed.




End first_frame.

(** C3: the static scene, run on the code.  Fifty identical well-featured
    frames are processed from the odometry as constructed; the residual kernel
    reports a correspondence of residual zero, so every registration returns a
    zero [Tr].  The ring ends with one keyframe and the trajectory with no
    pose: the first keyframe is pushed by [update_current_frame] and never
    appended to [final_path]. *)
Theorem static_scene_trajectory_empty :
  exists st,
    @visual_odom_v2.mapping_run Toy.eigen Toy.comm Toy.loop_never Toy.residual_one
      (replicate 50 (Toy.cloud_of 3 1%Q, Toy.good_frame, 0%Q))
      (Toy.odom0 Toy.loop_never tt)
    = Ok st /\
    local_map.counters (visual_odom_v2.local_maps st) = 1 /\
    poses (visual_odom_v2.final_path st) = [].
Proof.
  eexists. split; [vm_compute; reflexivity|]. split; reflexivity.
Qed.

(** C4, as stated, fails on the first frame: it is accepted, all six
    components of [Tr] are below the default thresholds, and yet the ring
    count changes from 0 to 1. *)
Lemma first_frame_changes_ring_below_thresholds :
  let st0 := Toy.odom0 Toy.loop_never tt in
  exists Tr st_u M st1,
    @visual_odom_v2.update_current_frame Toy.eigen Toy.comm Toy.loop_never
      Toy.residual_one Toy.good_frame st0 = Ok (ok Tr, st_u) /\
    all_below (visual_odom_v2.config st0) Tr /\
    @visual_odom_v2.mapping Toy.eigen Toy.comm Toy.loop_never Toy.residual_one
      (Toy.cloud_of 3 1%Q) Toy.good_frame 0%Q st0 = Ok (Some M, st1) /\
    local_map.counters (visual_odom_v2.local_maps st0) = 0 /\
    local_map.counters (visual_odom_v2.local_maps st1) = 1.
Proof.
  intros st0. do 4 eexists.
  split; [vm_compute; reflexivity|].
  split; [repeat split; reflexivity|].
  split; [vm_compute; reflexivity|].
  split; reflexivity.
Qed.

(** A concrete instance: five line features. *)
Lemma rejected_frame_changes_nothing_witness :
  let st := Toy.odom1 Toy.loop_never tt Transform_zero in
  feature_ok (velodyne_feature Toy.poor_frame) = false /\
  @visual_odom_v2.mapping Toy.eigen Toy.comm Toy.loop_never Toy.residual_one
    (Toy.cloud_of 3 1%Q) Toy.poor_frame 0%Q st = Ok (None, st).
Proof.
  intros st. split; [reflexivity|].
  apply (@rejected_frame_changes_nothing Toy.eigen Toy.comm Toy.loop_never
           Toy.residual_one).
  left. reflexivity.
Defined.

(** A concrete instance: a second frame on a ring of one keyframe,
    with a registration that returns the initial guess (1, 0, 0, 0, 0, 0). *)
Lemma keyframe_gate_witness :
  let st := Toy.odom1 Toy.loop_fixed 1 (mkTransform 1 0 0 0 0 0) in
  local_map.wf (visual_odom_v2.local_maps st) /\
  local_map.empty (visual_odom_v2.local_maps st) = false /\
  exists Tr st1,
    @visual_odom_v2.update_current_frame Toy.eigen Toy.comm Toy.loop_fixed
      Toy.residual_none (Toy.frame_of 100 2%Q) st = Ok (ok Tr, st1) /\
    some_at_or_above (visual_odom_v2.config st) Tr /\
    exists M' st',
      @visual_odom_v2.mapping Toy.eigen Toy.comm Toy.loop_fixed Toy.residual_none
        (Toy.cloud_of 3 1%Q) (Toy.frame_of 100 2%Q) 1%Q st = Ok (Some M', st') /\
      local_map.counters (visual_odom_v2.local_maps st') = 2 /\
      length (poses (visual_odom_v2.final_path st')) = 1.
Proof.
  intros st.
  assert (Hwf : local_map.wf (visual_odom_v2.local_maps st))
    by (apply push_wf, init_wf).
  split; [exact Hwf|]. split; [reflexivity|].
  eassert (Hu : @visual_odom_v2.update_current_frame Toy.eigen Toy.comm
                  Toy.loop_fixed Toy.residual_none (Toy.frame_of 100 2%Q) st
                = Ok (ok _, _)) by (vm_compute; reflexivity).
  do 2 eexists. split; [exact Hu|].
  assert (Habove : some_at_or_above (visual_odom_v2.config st)
                     (mkTransform 1 0 0 0 0 0)).
  { left. vm_compute. discriminate. }
  split; [exact Habove|].
  destruct (@keyframe_gate Toy.eigen Toy.comm Toy.loop_fixed Toy.residual_none
              st _ (Toy.cloud_of 3 1%Q) (Toy.frame_of 100 2%Q) 1%Q _
              Hwf eq_refl Hu) as (head_tr & _ & _ & Hgrow).
  exact (Hgrow Habove).
Defined.

(** A concrete instance: the loop module reports index 1 on a
    ring of two keyframes and a trajectory of three poses. *)
Lemma loop_detection_effect_witness :
  let st := Toy.odom_loop in
  local_map.wf (visual_odom_v2.local_maps st) /\
  @loop_var_loop_detection Toy.eigen Toy.loop_fixed (visual_odom_v2.loop st)
    (Toy.cloud_of 3 1%Q) (velodyne_feature Toy.good_frame) 9%Z = (1, 1) /\
  exists st',
    @visual_odom_v2.loop_detection Toy.eigen Toy.loop_fixed
      (Toy.cloud_of 3 1%Q) (velodyne_feature Toy.good_frame) 9%Z st
    = Ok (1%Z, st') /\
    local_map.prev_frame_location (visual_odom_v2.local_maps st') !! 1 = Some 1%Z /\
    local_map.prev_frame_location (visual_odom_v2.local_maps st') !! 0 = Some 2%Z /\
    poses (visual_odom_v2.final_path st') !! 0 = Some (Toy.pose_at 0 0) /\
    poses (visual_odom_v2.final_path st') !! 2 = Some (Toy.pose_at 2 102).
Proof.
  intros st.
  assert (Hwf : local_map.wf (visual_odom_v2.local_maps st))
    by (apply push_wf, push_wf, init_wf).
  split; [exact Hwf|]. split; [reflexivity|].
  destruct (@loop_detection_effect Toy.eigen Toy.loop_fixed st
              (Toy.cloud_of 3 1%Q) (velodyne_feature Toy.good_frame) 9%Z 1 1
              Hwf eq_refl) as (st' & Hrun & _ & Hpos).
  destruct (Hpos (Nat.lt_0_succ 0)) as (_ & _ & Hset & _ & Hposes).
  exists st'. split; [exact Hrun|].
  split; [exact (Hset 1 (conj (le_n 1) (le_S _ _ (le_n 1))))|].
  split; [exact (Hset 2 (conj (le_S _ _ (le_n 1)) (le_n 2)))|].
  split; [exact (Hposes 0 _ eq_refl)|exact (Hposes 2 _ eq_refl)].
Defined.

(** ** Registration *)

Section degenerate_facts.
Variable Scalar : Type.
Variable Sltb : Scalar -> Scalar -> bool.
Variable Splus : Scalar -> Scalar -> Scalar.
Variable Shalf : Scalar.
Variable eigen_real : (nat -> nat -> Scalar) -> nat -> Scalar.

Lemma scan_degenerate_true (eigen : nat -> Scalar) (threshold : Scalar) (n : nat) :
  forall i,
  scan_degenerate Scalar Sltb eigen threshold i n = true <->
  exists k, i <= k < i + n /\ Sltb (eigen k) threshold = true.
Proof.
  induction n as [|n IH]; intros i; simpl.
  - split; [discriminate|]. intros (k & Hk & _). lia.
  - destruct (Sltb (eigen i) threshold) eqn:Hi.
    + split; [|reflexivity]. intros _. exists i. split; [lia|exact Hi].
    + rewrite IH. split.
      * intros (k & Hk & Hlt). exists k. split; [lia|exact Hlt].
      * intros (k & Hk & Hlt). exists k. split; [|exact Hlt].
        destruct (Nat.eq_dec k i) as [->|Hne]; [congruence|lia].
Qed.

Lemma bump_diagonal_coeff (ATA : nat -> nat -> Scalar) (r c : nat) :
  r < 6 -> c < 6 ->
  bump_diagonal Scalar Splus Shalf ATA r c
  = if r =? c then Splus (ATA r c) Shalf else ATA r c.
Proof.
  intros Hr Hc. unfold bump_diagonal, set_coeff. simpl.
  destruct r as [|[|[|[|[|[|r]]]]]]; [| | | | | |lia];
    (destruct c as [|[|[|[|[|[|c]]]]]]; [| | | | | |lia]); reflexivity.
Qed.

Lemma remove_degenerate_coeff (ATA : nat -> nat -> Scalar) (threshold : Scalar)
    (r c : nat) :
  r < 6 -> c < 6 ->
  ((exists k, k < 6 /\ Sltb (eigen_real ATA k) threshold = true) ->
   remove_degenerate Scalar Sltb Splus Shalf eigen_real ATA threshold r c
   = if r =? c then Splus (ATA r c) Shalf else ATA r c) /\
  (~ (exists k, k < 6 /\ Sltb (eigen_real ATA k) threshold = true) ->
   remove_degenerate Scalar Sltb Splus Shalf eigen_real ATA threshold = ATA).
Proof.
  intros Hr Hc. unfold remove_degenerate.
  destruct (scan_degenerate Scalar Sltb (eigen_real ATA) threshold 0 6) eqn:Hs.
  - split; [intros _; by apply bump_diagonal_coeff|].
    intros Hno. exfalso. apply Hno.
    apply scan_degenerate_true in Hs as (k & Hk & Hlt). exists k. split; [lia|exact Hlt].
  - split; [|reflexivity].
    intros (k & Hk & Hlt).
    assert (Ht : scan_degenerate Scalar Sltb (eigen_real ATA) threshold 0 6 = true)
      by (apply scan_degenerate_true; exists k; split; [lia|exact Hlt]).
    congruence.
Qed.

End degenerate_facts.

Section registration.
Context `{Residual}.

(** One pass of the loop (lines 37-71) from a state that has correspondences:
    [LM2_delta] is solved for, the estimate is moved, and the loop returns or
    goes on with the next counter. *)
Lemma LM2_loop_step (this_features : feature_frame)
    (adap_velodyne adap_livox : feature_adapter) (threshold : Q)
    (fuel i : nat) (estimate : Transform) :
  let N := Ab [ (velodyne_feature this_features, adap_velodyne);
                (livox_feature this_features, adap_livox) ] estimate in
  top N <> 0 ->
  LM2_loop this_features adap_velodyne adap_livox threshold (S fuel) i estimate
  = let delta := householderQr_solve (normal_matrix i threshold N) (Atb N) in
    if converged delta then add_delta estimate delta
    else LM2_loop this_features adap_velodyne adap_livox threshold fuel (S i)
           (add_delta estimate delta).
Proof.
  intros N Htop. cbn [LM2_loop]. fold N.
  destruct (Nat.eqb_spec (top N) 0); [contradiction|]. reflexivity.
Qed.

(** C6: what [LM2] solves with.  On a call that finds correspondences, the
    first pass of [LM2] solves with a matrix [first_matrix] built from
    [ATA = A^T A] at the initial estimate: if some eigenvalue of [ATA] is
    below the threshold, each of its six diagonal coefficients is
    [ATA(r, r) + 0.5] and the other coefficients are those of [ATA]; if none
    is, it is [ATA].  [LM2] returns the moved estimate if that pass converges,
    and otherwise runs the remaining 29 passes with the counter at 1; every
    pass with a counter other than 0 solves with the [ATA] of its own estimate
    as it is, and goes on with the next counter. *)
Theorem degeneracy_bump_on_first_iteration_only
    (this_features local_maps : feature_frame) (threshold : Q)
    (initial : Transform) :
  let adap_velodyne := make_adapter (velodyne_feature local_maps) in
  let adap_livox := make_adapter (livox_feature local_maps) in
  let system estimate :=
    Ab [ (velodyne_feature this_features, adap_velodyne);
         (livox_feature this_features, adap_livox) ] estimate in
  let pass solved_with fuel i estimate :=
    let delta := householderQr_solve solved_with (Atb (system estimate)) in
    if converged delta then add_delta estimate delta
    else LM2_loop this_features adap_velodyne adap_livox threshold fuel i
           (add_delta estimate delta) in
  let ATA := AtA (system initial) in
  let degenerate :=
    exists k, k < 6 /\ (eigenvalues_real ATA k < threshold)%Q in
  top (system initial) <> 0 ->
  exists first_matrix,
    (degenerate ->
     forall r c, r < 6 -> c < 6 ->
       first_matrix r c = if r =? c then (ATA r c + (1 # 2))%Q else ATA r c) /\
    (~ degenerate -> first_matrix = ATA) /\
    LM2 this_features local_maps threshold initial
    = pass first_matrix 29 1 initial /\
    (forall fuel i estimate,
       i <> 0 -> top (system estimate) <> 0 ->
       LM2_loop this_features adap_velodyne adap_livox threshold (S fuel) i estimate
       = pass (AtA (system estimate)) fuel (S i) estimate).
Proof.
  intros adap_velodyne adap_livox system pass ATA degenerate Htop.
  assert (Hdeg : degenerate <->
                 exists k, k < 6 /\ Qltb (eigenvalues_real ATA k) threshold = true).
  { unfold degenerate. split; intros (k & Hk & Hlt); exists k; (split; [exact Hk|]);
      by apply Qltb_lt. }
  exists (normal_matrix 0 threshold (system initial)).
  split; [|split; [|split]].
  - intros Hd r c Hr Hc.
    destruct (remove_degenerate_coeff Q Qltb Qplus (1 # 2)%Q eigenvalues_real
                ATA threshold r c Hr Hc) as [Hbump _].
    unfold normal_matrix. cbn [Nat.eqb]. apply Hbump, Hdeg, Hd.
  - intros Hd.
    destruct (remove_degenerate_coeff Q Qltb Qplus (1 # 2)%Q eigenvalues_real
                ATA threshold 0 0 (Nat.lt_0_succ 5) (Nat.lt_0_succ 5)) as [_ Hsame].
    unfold normal_matrix. cbn [Nat.eqb]. apply Hsame.
    intros Hd'. apply Hd, Hdeg, Hd'.
  - unfold LM2. fold adap_velodyne adap_livox.
    rewrite (LM2_loop_step this_features adap_velodyne adap_livox threshold 29 0
               initial Htop).
    reflexivity.
  - intros fuel i estimate Hi Hne.
    rewrite (LM2_loop_step this_features adap_velodyne adap_livox threshold fuel i
               estimate Hne).
    unfold normal_matrix. destruct (Nat.eqb_spec i 0); [contradiction|]. reflexivity.
Qed.

(** C7: the registration is a total function; whenever an iteration finds no
    correspondence the loop returns the running estimate as it stands, and a
    call that finds none at the start returns [initial]. *)
Theorem LM2_returns_estimate_without_correspondence
    (this_features local_maps : feature_frame) (threshold : Q)
    (fuel i : nat) (estimate : Transform) :
  top (Ab [ (velodyne_feature this_features,
             make_adapter (velodyne_feature local_maps));
            (livox_feature this_features,
             make_adapter (livox_feature local_maps)) ] estimate) = 0 ->
  LM2_loop this_features (make_adapter (velodyne_feature local_maps))
    (make_adapter (livox_feature local_maps)) threshold fuel i estimate = estimate /\
  LM2 this_features local_maps threshold estimate = estimate.
Proof.
  intros Htop.
  assert (Hloop : forall n k,
            LM2_loop this_features (make_adapter (velodyne_feature local_maps))
              (make_adapter (livox_feature local_maps)) threshold n k estimate
            = estimate).
  { intros [|n] k; [reflexivity|]. cbn [LM2_loop]. by rewrite Htop. }
  split; [apply Hloop|]. unfold LM2. apply Hloop.
Qed.

End registration.

(** A concrete instance: one row along x, whose normal matrix has five zero
    eigenvalues; the first pass converges. *)
Lemma degeneracy_bump_on_first_iteration_only_witness :
  let N := @Ab Toy.residual_one
             [ (velodyne_feature Toy.good_frame, tt);
               (livox_feature Toy.good_frame, tt) ] Transform_zero in
  top N = 1 /\
  exists first_matrix,
    first_matrix 0 0 = (AtA N 0 0 + (1 # 2))%Q /\
    first_matrix 0 1 = AtA N 0 1 /\
    @LM2 Toy.residual_one Toy.good_frame Toy.good_frame 10%Q Transform_zero
    = add_delta Transform_zero
        (@householderQr_solve Toy.residual_one first_matrix (Atb N)).
Proof.
  intros N. split; [reflexivity|].
  destruct (@degeneracy_bump_on_first_iteration_only Toy.residual_one
              Toy.good_frame Toy.good_frame 10%Q Transform_zero)
    as (first_matrix & Hbump & _ & Hrun & _); [discriminate|].
  assert (Hd : exists k, k < 6 /\
                 (@eigenvalues_real Toy.residual_one (AtA N) k < 10)%Q)
    by (exists 1; split; [lia|reflexivity]).
  exists first_matrix.
  split; [exact (Hbump Hd 0 0 (Nat.lt_0_succ 5) (Nat.lt_0_succ 5))|].
  split; [exact (Hbump Hd 0 1 (Nat.lt_0_succ 5) (le_n_S _ _ (Nat.lt_0_succ 4)))|].
  exact Hrun.
Defined.

(** A concrete instance. *)
Lemma LM2_returns_estimate_without_correspondence_witness :
  let estimate := mkTransform 1 2 3 0 0 0 in
  top (@Ab Toy.residual_none
         [ (velodyne_feature Toy.good_frame, tt); (livox_feature Toy.good_frame, tt) ]
         estimate) = 0 /\
  @LM2 Toy.residual_none Toy.good_frame Toy.good_frame 10%Q estimate = estimate.
Proof.
  intros estimate. split; [reflexivity|].
  apply (@LM2_returns_estimate_without_correspondence Toy.residual_none
           Toy.good_frame Toy.good_frame 10%Q 30 0 estimate eq_refl).
Defined.

(** ** The feature stage *)

Section feature_stage.
Context `{Comm}.

(** Closes the leaves of the case analysis of one sensor branch. *)
Ltac stage_leaf :=
  repeat split; try done;
  try (intros _; do 2 eexists; repeat split; try eassumption; lia);
  try (intros (? & ? & ? & ? & ? & ?); simplify_eq; lia);
  try (intros [[? ?] [? ?]]; simplify_eq).

(** The three outcomes of the spin branch (38-45). *)
Lemma velodyne_branch_spec (self : feature_thread.t) (msg : synced_message) :
  let vf := feature_velodyne (velodyne msg) null_objects in
  match feature_thread.velodyne_branch self msg null_frame with
  | Ok (Some fr) =>
      (feature_thread.use_velodyne self = true -> velodyne_check vf) /\
      livox_feature fr = null_objects
  | Ok None => feature_thread.use_velodyne self = true /\ ~ velodyne_check vf
  | Fault _ =>
      feature_thread.use_velodyne self = true /\ ~ velodyne_check vf /\
      ~ (is_Some (line_features vf) /\ is_Some (plane_features vf))
  end.
Proof.
  intros vf. unfold feature_thread.velodyne_branch, velodyne_check, deref.
  cbn [velodyne_feature livox_feature null_frame]. fold vf.
  destruct (feature_thread.use_velodyne self); [|stage_leaf].
  destruct (line_features vf) as [line|] eqn:Hl; cbn [mbind res_bind]; [|stage_leaf].
  destruct (Nat.ltb_spec (cloud_size line) 20); [stage_leaf|].
  destruct (plane_features vf) as [plane|] eqn:Hp; cbn [mbind res_bind]; [|stage_leaf].
  destruct (Nat.ltb_spec (cloud_size plane) 100); stage_leaf.
Qed.

(** The three outcomes of the solid branch (47-60). *)
Lemma livox_branch_spec (self : feature_thread.t) (msg : synced_message)
    (frame : feature_frame) :
  livox_feature frame = null_objects ->
  let lf := feature_livox (livox msg) null_objects in
  match feature_thread.livox_branch self msg frame with
  | Ok (Some fr) => feature_thread.use_livox self = true -> livox_check lf
  | Ok None => feature_thread.use_livox self = true /\ ~ livox_check lf
  | Fault _ =>
      feature_thread.use_livox self = true /\ ~ livox_check lf /\
      ~ (is_Some (plane_features lf) /\ is_Some (non_features lf))
  end.
Proof.
  intros Hnull lf. unfold feature_thread.livox_branch, livox_check, deref, cloud_empty.
  rewrite Hnull. fold lf.
  destruct (feature_thread.use_livox self); [|stage_leaf].
  destruct (plane_features lf) as [plane|] eqn:Hp; cbn [mbind res_bind]; [|stage_leaf].
  destruct (Nat.eqb_spec (cloud_size plane) 0); [stage_leaf|].
  destruct (non_features lf) as [non|] eqn:Hn; cbn [mbind res_bind]; [|stage_leaf].
  destruct (Nat.eqb_spec (cloud_size non) 0); stage_leaf.
Qed.

Lemma features_step_publishes_iff (self : feature_thread.t) (msg : synced_message) :
  (exists frame, feature_thread.features_step self msg = Ok (Some (msg, frame)))
  <-> branches_pass self msg.
Proof.
  unfold branches_pass, feature_thread.features_step.
  pose proof (velodyne_branch_spec self msg) as Hv. cbv zeta in Hv.
  destruct (feature_thread.velodyne_branch self msg null_frame) as [[fr|]|f];
    cbn [mbind res_bind].
  - destruct Hv as [Hv Hnull].
    pose proof (livox_branch_spec self msg fr Hnull) as Hl. cbv zeta in Hl.
    destruct (feature_thread.livox_branch self msg fr) as [[fr'|]|f'];
      cbn [mbind res_bind].
    + split; [intros _; by split|]. intros _. by eexists.
    + split; [intros [? ?]; discriminate|]. intros [_ Hc]. destruct Hl as [Hu Hn].
      contradiction (Hn (Hc Hu)).
    + split; [intros [? ?]; discriminate|]. intros [_ Hc]. destruct Hl as (Hu & Hn & _).
      contradiction (Hn (Hc Hu)).
  - split; [intros [? ?]; discriminate|]. intros [Hc _]. destruct Hv as [Hu Hn].
    contradiction (Hn (Hc Hu)).
  - split; [intros [? ?]; discriminate|]. intros [Hc _]. destruct Hv as (Hu & Hn & _).
    contradiction (Hn (Hc Hu)).
Qed.

Lemma features_step_drops (self : feature_thread.t) (msg : synced_message) :
  populated self msg -> ~ branches_pass self msg ->
  feature_thread.features_step self msg = Ok None.
Proof.
  unfold branches_pass, populated, feature_thread.features_step.
  intros [Pv Pl] Hno.
  pose proof (velodyne_branch_spec self msg) as Hv. cbv zeta in Hv.
  destruct (feature_thread.velodyne_branch self msg null_frame) as [[fr|]|f];
    cbn [mbind res_bind]; [|reflexivity|].
  - destruct Hv as [Hv Hnull].
    pose proof (livox_branch_spec self msg fr Hnull) as Hl. cbv zeta in Hl.
    destruct (feature_thread.livox_branch self msg fr) as [[fr'|]|f'];
      cbn [mbind res_bind]; [|reflexivity|].
    + contradiction Hno. by split.
    + destruct Hl as (Hu & _ & Hn). contradiction (Hn (Pl Hu)).
  - destruct Hv as (Hu & _ & Hn). contradiction (Hn (Pv Hu)).
Qed.

(** A populated message is either published or dropped: the step returns. *)
Lemma features_step_total (self : feature_thread.t) (msg : synced_message) :
  populated self msg ->
  exists r, feature_thread.features_step self msg = Ok r.
Proof.
  unfold populated, feature_thread.features_step. intros [Pv Pl].
  pose proof (velodyne_branch_spec self msg) as Hv. cbv zeta in Hv.
  destruct (feature_thread.velodyne_branch self msg null_frame) as [[fr|]|f];
    cbn [mbind res_bind]; [|by eexists|].
  - destruct Hv as [Hv Hnull].
    pose proof (livox_branch_spec self msg fr Hnull) as Hl. cbv zeta in Hl.
    destruct (feature_thread.livox_branch self msg fr) as [[fr'|]|f'];
      cbn [mbind res_bind]; [by eexists|by eexists|].
    destruct Hl as (Hu & _ & Hn). contradiction (Hn (Pl Hu)).
  - destruct Hv as (Hu & _ & Hn). contradiction (Hn (Pv Hu)).
Qed.

(** C8: over a batch processed without a stop request, with kernels that
    allocate their sub-clouds.  A message is handed to the delegate, with the
    frame its step builds, exactly when every enabled branch passes its check
    (spin: at least 20 line and 100 plane features; solid: plane and
    non-feature clouds both non-empty); a message that fails a check is
    dropped, and the messages after it are still processed, in order. *)
Theorem feature_stage_publishes_iff_checks (self : feature_thread.t)
    (should_stop : nat -> bool) (k : nat) (pq : list synced_message) :
  (forall j, should_stop j = false) ->
  (forall msg, msg ∈ pq -> populated self msg) ->
  exists out,
    feature_thread.features_batch self should_stop k pq = Ok out /\
    (forall msg frame, (msg, frame) ∈ out <->
       msg ∈ pq /\ feature_thread.features_step self msg = Ok (Some (msg, frame))) /\
    (forall msg, msg ∈ pq ->
       (branches_pass self msg -> exists frame, (msg, frame) ∈ out) /\
       (~ branches_pass self msg ->
          feature_thread.features_step self msg = Ok None /\
          forall frame, (msg, frame) ∉ out)) /\
    fst <$> out `sublist_of` pq.
Proof.
  intros Hrun. revert k.
  assert (Hgen : forall k, (forall msg, msg ∈ pq -> populated self msg) ->
    exists out,
      feature_thread.features_batch self should_stop k pq = Ok out /\
      (forall msg frame, (msg, frame) ∈ out <->
         msg ∈ pq /\ feature_thread.features_step self msg = Ok (Some (msg, frame))) /\
      fst <$> out `sublist_of` pq).
  { induction pq as [|m rest IH]; intros k Hpop.
    - exists []. split; [reflexivity|]. split; [|constructor].
      intros msg frame. split; [intros Hin; by apply elem_of_nil in Hin|].
      intros [Hin _]. by apply elem_of_nil in Hin.
    - destruct (IH (S k)) as (out & Hout & Hmem & Hsub).
      { intros msg Hin. apply Hpop. by right. }
      destruct (features_step_total self m) as [r Hr]; [apply Hpop; left|].
      cbn [feature_thread.features_batch]. rewrite Hrun, Hr, Hout.
      cbn [mbind res_bind].
      destruct r as [[m' fr]|].
      + assert (m' = m) as ->.
        { revert Hr. unfold feature_thread.features_step.
          destruct (feature_thread.velodyne_branch _ _ _) as [[?|]|]; cbn [mbind res_bind];
            try discriminate.
          destruct (feature_thread.livox_branch _ _ _) as [[?|]|]; cbn [mbind res_bind];
            try discriminate. by intros [= -> _]. }
        eexists. split; [reflexivity|]. split.
        * intros msg frame. rewrite elem_of_cons, Hmem, elem_of_cons. split.
          -- intros [[= -> ->]|[Hin Hs]]; [split; [by left|exact Hr]|split; [by right|exact Hs]].
          -- intros [[->|Hin] Hs]; [left; congruence|right; by split].
        * cbn. by constructor.
      + eexists. split; [reflexivity|]. split.
        * intros msg frame. rewrite Hmem, elem_of_cons. split.
          -- intros [Hin Hs]. split; [by right|exact Hs].
          -- intros [[->|Hin] Hs]; [congruence|by split].
        * by constructor. }
  intros k Hpop. destruct (Hgen k Hpop) as (out & Hout & Hmem & Hsub).
  exists out. split; [exact Hout|]. split; [exact Hmem|]. split; [|exact Hsub].
  intros msg Hin. split.
  - intros Hpass. apply features_step_publishes_iff in Hpass as [frame Hs].
    exists frame. apply Hmem. by split.
  - intros Hno. pose proof (features_step_drops self msg (Hpop msg Hin) Hno) as Hd.
    split; [exact Hd|]. intros frame Hf. apply Hmem in Hf as [_ Hs]. congruence.
Qed.
End feature_stage.

(** A concrete instance: a batch of a good, an
    under-featured and another good message. *)
Lemma feature_stage_publishes_iff_checks_witness :
  let self := {| feature_thread.livox_transform := 0%Z : @Matrix4d Toy.eigen;
                 feature_thread.use_livox := true;
                 feature_thread.use_velodyne := true |} in
  let good t := {| time := t; velodyne := Toy.cloud_of 100 1%Q;
                   livox := Toy.cloud_of 100 1%Q |} in
  let poor := {| time := 1%Q; velodyne := Toy.cloud_of 5 1%Q;
                 livox := Toy.cloud_of 100 1%Q |} in
  let pq := [good 0%Q; poor; good 2%Q] in
  (forall j : nat, (fun _ => false) j = false) /\
  (forall msg, msg ∈ pq -> @populated Toy.eigen Toy.comm self msg) /\
  exists out,
    @feature_thread.features_batch Toy.eigen Toy.comm self (fun _ => false) 0 pq
    = Ok out /\
    (exists frame, (good 0%Q, frame) ∈ out) /\
    (forall frame, (poor, frame) ∉ out) /\
    (exists frame, (good 2%Q, frame) ∈ out).
Proof.
  intros self good poor pq.
  assert (Hpop : forall msg, msg ∈ pq -> @populated Toy.eigen Toy.comm self msg).
  { intros msg _. split; intros _; split; eexists; reflexivity. }
  split; [reflexivity|]. split; [exact Hpop|].
  destruct (@feature_stage_publishes_iff_checks Toy.eigen Toy.comm self
              (fun _ => false) 0 pq (fun _ => eq_refl) Hpop)
    as (out & Hout & _ & Hcheck & _).
  exists out. split; [exact Hout|].
  assert (Hgood : forall t, @branches_pass Toy.eigen Toy.comm self (good t)).
  { intros t. split; intros _; do 2 eexists; repeat split; try reflexivity;
      cbn; try lia; discriminate. }
  assert (Hpoor : ~ @branches_pass Toy.eigen Toy.comm self poor).
  { intros [Hv _]. destruct (Hv eq_refl) as (l & p & Hl & _ & H20 & _).
    injection Hl as <-. cbn in H20. lia. }
  split; [|split].
  - apply (Hcheck (good 0%Q)); [left|apply Hgood].
  - apply (Hcheck poor); [right; left|exact Hpoor].
  - apply (Hcheck (good 2%Q)); [right; right; left|apply Hgood].
Defined.

(** ** Start-up *)

(** Membership of a log line in a log written as a concatenation. *)
Ltac log_member :=
  solve [ apply elem_of_cons; left; reflexivity
        | apply elem_of_app; left; log_member
        | apply elem_of_app; right; log_member ].

Section startup_facts.
Context `{Comm}.

Lemma read_livox_cab_six (livox_cab : list Q) :
  length livox_cab = 6 -> exists tr, read_livox_cab livox_cab = Ok tr.
Proof.
  intros Hlen.
  destruct livox_cab as [|c0 [|c1 [|c2 [|c3 [|c4 [|c5 [|c6 rest]]]]]]];
    try discriminate Hlen.
  eexists. reflexivity.
Qed.

Lemma size_check_reports (livox_cab : list Q) :
  length livox_cab <> 6 ->
  size_check livox_cab = [FATAL_livox_transform_size (length livox_cab)].
Proof.
  intros Hne. unfold size_check.
  destruct (Nat.eqb_spec (length livox_cab) 6); [contradiction|reflexivity].
Qed.

(** C2, amended: a bad configuration is diagnosed, not refused.  An extrinsic
    list whose length is not 6 makes both constructors log a fatal line.  With
    both sensor branches disabled the feature stage logs a fatal line and
    enables both branches; with a 6-element extrinsic list both constructors
    then return and the pipeline runs. *)
Theorem startup_bad_config_diagnosed (p : startup_params) :
  bad_config p ->
  (length (param_livox_transform p) <> 6 ->
     FATAL_livox_transform_size (length (param_livox_transform p))
       ∈ fst (feature_thread.construct p) /\
     FATAL_livox_transform_size (length (param_livox_transform p))
       ∈ fst (mapping_thread.construct p)) /\
  (both_sensors_disabled p ->
     FATAL_both_false ∈ fst (feature_thread.construct p) /\
     (length (param_livox_transform p) = 6 ->
        exists ft mt,
          snd (startup p) = Ok (ft, mt) /\
          feature_thread.use_livox ft = true /\
          feature_thread.use_velodyne ft = true)).
Proof.
  intros _. split.
  - intros Hne. unfold feature_thread.construct, mapping_thread.construct.
    rewrite (size_check_reports _ Hne).
    destruct (read_livox_cab (param_livox_transform p)); cbn [fst];
      split; log_member.
  - intros [Hl Hv]. split.
    + unfold feature_thread.construct. rewrite Hl, Hv. cbn [negb andb].
      destruct (read_livox_cab (param_livox_transform p)); cbn [fst];
        log_member.
    + intros Hlen. destruct (read_livox_cab_six _ Hlen) as [tr Htr].
      unfold startup, feature_thread.construct, mapping_thread.construct.
      rewrite Hl, Hv, Htr. cbn [negb andb snd].
      do 2 eexists. split; [reflexivity|]. split; reflexivity.
Qed.

End startup_facts.

(** C2, as stated, fails: with both sensor branches disabled and a 6-element
    extrinsic list, both constructors return and the pipeline runs. *)
Lemma both_disabled_startup_runs :
  bad_config Toy.both_disabled /\
  @pipeline_runs Toy.eigen Toy.comm Toy.both_disabled.
Proof.
  split; [right; split; reflexivity|].
  do 2 eexists. vm_compute. reflexivity.
Qed.

(** A concrete instance. *)
Lemma startup_bad_config_diagnosed_witness :
  bad_config Toy.both_disabled /\
  FATAL_both_false ∈ fst (@feature_thread.construct Toy.eigen Toy.comm Toy.both_disabled) /\
  exists ft mt,
    snd (@startup Toy.eigen Toy.comm Toy.both_disabled) = Ok (ft, mt) /\
    feature_thread.use_livox ft = true /\
    feature_thread.use_velodyne ft = true.
Proof.
  assert (Hbad : bad_config Toy.both_disabled) by (right; split; reflexivity).
  split; [exact Hbad|].
  destruct (@startup_bad_config_diagnosed Toy.eigen Toy.comm Toy.both_disabled Hbad)
    as [_ Hboth].
  destruct (Hboth (conj eq_refl eq_refl)) as [Hlog Hrun].
  split; [exact Hlog|]. exact (Hrun eq_refl).
Defined.

(** * Further properties of the ring *)

Section ring_more.
Context `{Eigen}.

(** X1: on a well-formed ring, [tr()] right after [push(frame, M)] returns [M],
    and the head entry is the pushed pair. *)
Theorem tr_after_push (frame : feature_frame) (transform : Matrix4d)
    (lm : local_map.t) :
  local_map.wf lm ->
  local_map.tr (local_map.push frame transform lm) = Ok transform /\
  back_entry (local_map.push frame transform lm) 1 = Some (frame, transform) /\
  local_map.empty (local_map.push frame transform lm) = false.
Proof.
  intros Hwf.
  pose proof (back_entry_push_head frame transform lm Hwf) as Hb.
  pose proof Hwf as (_ & _ & _ & Hc). unfold local_map.previous_frame_count in Hc.
  assert (Hne : local_map.counters (local_map.push frame transform lm) <> 0)
    by (rewrite push_counters by exact Hc; lia).
  split; [by apply (tr_back_entry _ frame)|]. split; [exact Hb|].
  unfold local_map.empty. by apply Nat.eqb_neq.
Qed.

(** X2: a push onto a ring reached by pushes puts the new entry in front of
    the backward traversal and keeps the 19 newest of the old entries, in
    order; at capacity the oldest entry is the one that goes. *)
Theorem push_shifts_entries (frame : feature_frame) (transform : Matrix4d)
    (lm : local_map.t) :
  reachable lm ->
  reachable (local_map.push frame transform lm) /\
  entries_backwards (local_map.push frame transform lm)
  = Some (frame, transform) :: take 19 (entries_backwards lm) /\
  length (entries_backwards (local_map.push frame transform lm))
  = Nat.min (local_map.counters lm + 1) 20.
Proof.
  intros Hr. split; [by apply push_reachable|].
  split; [by apply entries_backwards_push|].
  unfold entries_backwards. rewrite length_map, length_seq.
  apply push_counters. destruct Hr as [(_ & _ & _ & Hc) _]. exact Hc.
Qed.

(** What a [set] within range does to the entries. *)
Lemma set_entry (b : nat) (m : Matrix4d) (lm : local_map.t) :
  local_map.wf lm -> 1 <= b <= local_map.counters lm ->
  exists lm',
    local_map.set b m lm = Ok lm' /\
    local_map.wf lm' /\
    local_map.head lm' = local_map.head lm /\
    local_map.counters lm' = local_map.counters lm /\
    back_entry lm' b = (fun e => (fst e, m)) <$> back_entry lm b /\
    is_Some (back_entry lm' b) /\
    (forall b', 1 <= b' <= local_map.counters lm -> b' <> b ->
       back_entry lm' b' = back_entry lm b').
Proof.
  intros Hwf Hb.
  destruct (set_ok b m lm Hwf Hb) as [lm' Hset]. exists lm'.
  pose proof (set_inv _ _ _ _ Hset) as [Hsame Hloc].
  pose proof (slot_of_back_lt lm b Hwf Hb) as Hlt.
  pose proof Hwf as (Hf & Hl & _ & _). unfold local_map.previous_frame_count in *.
  pose proof Hsame as (Hfr & Hh & Hc & _).
  split; [exact Hset|]. split; [by eapply same_frames_wf|].
  split; [exact Hh|]. split; [exact Hc|].
  assert (Hb' : back_entry lm' b = (fun e => (fst e, m)) <$> back_entry lm b).
  { unfold back_entry. rewrite (same_frames_slot _ _ b Hsame), Hfr, Hloc.
    rewrite list_lookup_insert_eq by lia.
    destruct (lookup_lt_is_Some_2 (local_map.prev_frames lm)
                (local_map.slot_of_back lm b)) as [f Hfl]; [lia|].
    destruct (lookup_lt_is_Some_2 (local_map.prev_frame_location lm)
                (local_map.slot_of_back lm b)) as [o Hol]; [lia|].
    rewrite Hfl, Hol. reflexivity. }
  split; [exact Hb'|]. split.
  - rewrite Hb'. unfold back_entry.
    destruct (lookup_lt_is_Some_2 (local_map.prev_frames lm)
                (local_map.slot_of_back lm b)) as [f Hfl]; [lia|].
    destruct (lookup_lt_is_Some_2 (local_map.prev_frame_location lm)
                (local_map.slot_of_back lm b)) as [o Hol]; [lia|].
    rewrite Hfl, Hol. by eexists.
  - intros b' Hb'r Hne. unfold back_entry.
    rewrite (same_frames_slot _ _ b' Hsame), Hfr, Hloc.
    rewrite list_lookup_insert_ne; [reflexivity|].
    intros E. apply Hne. symmetry. by apply (slot_of_back_inj lm b b').
Qed.

(** X3: [set(b, M)] with [1 <= b <= counters] on a well-formed ring succeeds;
    afterwards the entry [b] steps back has transform [M] and its frame as
    before, every other valid entry is untouched, and the ring is still well
    formed with the same head and count. *)
Theorem set_rewrites_one_entry (b : nat) (m : Matrix4d) (lm : local_map.t) :
  local_map.wf lm -> 1 <= b <= local_map.counters lm ->
  exists lm',
    local_map.set b m lm = Ok lm' /\
    local_map.wf lm' /\
    local_map.head lm' = local_map.head lm /\
    local_map.counters lm' = local_map.counters lm /\
    back_entry lm' b = (fun e => (fst e, m)) <$> back_entry lm b /\
    is_Some (back_entry lm' b) /\
    (forall b', 1 <= b' <= local_map.counters lm -> b' <> b ->
       back_entry lm' b' = back_entry lm b').
Proof. exact (set_entry b m lm). Qed.

(** X4: back index 0 passes the assertion of [set].  On a full well-formed
    ring whose head is not the last slot, [set(0, M)] succeeds and rewrites the
    oldest entry (the one 20 steps back); when the head is the last slot it
    subscripts [prev_frame_location] at 20, past the array. *)
Theorem set_zero_back_index (m : Matrix4d) (lm : local_map.t) :
  local_map.wf lm -> local_map.counters lm = 20 ->
  (local_map.head lm = 19 -> local_map.set 0 m lm = Fault OutOfRange) /\
  (local_map.head lm < 19 ->
     exists lm',
       local_map.set 0 m lm = Ok lm' /\
       local_map.set 20 m lm = Ok lm' /\
       back_entry lm' 20 = (fun e => (fst e, m)) <$> back_entry lm 20).
Proof.
  intros Hwf Hfull. pose proof Hwf as (Hf & Hl & Hh & _).
  unfold local_map.previous_frame_count in *.
  assert (E0 : local_map.slot_of_back lm 0 = local_map.head lm + 1)
    by (unfold local_map.slot_of_back; nat_cases; lia).
  split.
  - intros H19. unfold local_map.set. rewrite E0, Hfull, H19, Hl. reflexivity.
  - intros Hlt.
    assert (E20 : local_map.slot_of_back lm 20 = local_map.head lm + 1)
      by (unfold local_map.slot_of_back; rewrite Hfull; nat_cases; lia).
    destruct (set_entry 20 m lm Hwf) as (lm' & Hset & _ & _ & _ & Hb & _); [lia|].
    exists lm'. split; [|split; [exact Hset|exact Hb]].
    rewrite <- Hset. unfold local_map.set. rewrite E0, E20, Hfull. reflexivity.
Qed.

End ring_more.

(** A concrete instance: a push onto the fresh ring. *)
Lemma tr_after_push_witness :
  let lm := @local_map.init Toy.eigen 7%Z in
  local_map.wf lm /\
  @local_map.tr Toy.eigen (@local_map.push Toy.eigen null_frame 3%Z lm) = Ok 3%Z.
Proof.
  intros lm. split; [apply init_wf|].
  apply (@tr_after_push Toy.eigen null_frame 3%Z lm (@init_wf Toy.eigen 7%Z)).
Defined.

(** A concrete instance: the second push. *)
Lemma push_shifts_entries_witness :
  let lm := @local_map.push Toy.eigen null_frame 3%Z (@local_map.init Toy.eigen 7%Z) in
  reachable lm /\
  entries_backwards (@local_map.push Toy.eigen (Toy.frame_of 1 1%Q) 4%Z lm)
  = [Some (Toy.frame_of 1 1%Q, 4%Z); Some (null_frame, 3%Z)].
Proof.
  intros lm.
  assert (Hr : reachable lm) by (apply push_reachable, init_reachable).
  split; [exact Hr|].
  destruct (@push_shifts_entries Toy.eigen (Toy.frame_of 1 1%Q) 4%Z lm Hr)
    as (_ & Hent & _).
  exact Hent.
Defined.

(** A concrete instance: the older of two keyframes is moved. *)
Lemma set_rewrites_one_entry_witness :
  let lm := @local_map.push Toy.eigen (Toy.frame_of 1 1%Q) 4%Z
              (@local_map.push Toy.eigen null_frame 3%Z (@local_map.init Toy.eigen 7%Z)) in
  local_map.wf lm /\ 1 <= 2 <= local_map.counters lm /\
  exists lm',
    @local_map.set Toy.eigen 2 9%Z lm = Ok lm' /\
    back_entry lm' 2 = Some (null_frame, 9%Z) /\
    back_entry lm' 1 = Some (Toy.frame_of 1 1%Q, 4%Z).
Proof.
  intros lm.
  assert (Hwf : local_map.wf lm) by (apply push_wf, push_wf, init_wf).
  assert (Hb : 1 <= 2 <= local_map.counters lm) by (split; [apply le_S, le_n|apply le_n]).
  split; [exact Hwf|]. split; [exact Hb|].
  destruct (@set_rewrites_one_entry Toy.eigen 2 9%Z lm Hwf Hb)
    as (lm' & Hset & _ & _ & _ & H2 & _ & Hother).
  exists lm'. split; [exact Hset|]. split; [exact H2|].
  apply (Hother 1); [split; [apply le_n|apply le_S, le_n]|discriminate].
Defined.

(** A concrete instance: a ring filled by 21 pushes, whose head is slot 0. *)
Lemma set_zero_back_index_witness :
  let lm := @local_map.push_all Toy.eigen
              (map (fun k => (null_frame, Z.of_nat k)) (seq 1 21))
              (@local_map.init Toy.eigen 0%Z) in
  local_map.wf lm /\ local_map.counters lm = 20 /\
  exists lm',
    @local_map.set Toy.eigen 0 9%Z lm = Ok lm' /\
    back_entry lm 20 = Some (null_frame, 2%Z) /\
    back_entry lm' 20 = Some (null_frame, 9%Z).
Proof.
  intros lm.
  assert (Hwf : local_map.wf lm).
  { apply (proj1 (push_all_reachable _ _ (@init_reachable Toy.eigen 0%Z))). }
  split; [exact Hwf|]. split; [reflexivity|].
  destruct (@set_zero_back_index Toy.eigen 9%Z lm Hwf eq_refl) as [_ Hlow].
  destruct (Hlow (Nat.lt_0_succ 18)) as (lm' & H0 & _ & H20).
  exists lm'. split; [exact H0|]. split; [reflexivity|]. exact H20.
Defined.

(** * The fused-map cache *)

Section cache.
Context `{Comm}.

Lemma fuse_slots_agree (lm lm' : local_map.t) (transform : Matrix4d)
    (slots : list nat) :
  (forall i, i ∈ slots ->
     local_map.prev_frames lm' !! i = local_map.prev_frames lm !! i /\
     local_map.prev_frame_location lm' !! i = local_map.prev_frame_location lm !! i) ->
  forall result,
  local_map.fuse_slots lm' transform result slots
  = local_map.fuse_slots lm transform result slots.
Proof.
  induction slots as [|i rest IH]; intros Hagree result; [reflexivity|].
  cbn [local_map.fuse_slots].
  assert (Hi : local_map.fuse_slot lm' transform result i
               = local_map.fuse_slot lm transform result i).
  { unfold local_map.fuse_slot. destruct (Hagree i) as [-> ->]; [left|reflexivity]. }
  rewrite Hi. destruct (local_map.fuse_slot lm transform result i); [|reflexivity].
  cbn [mbind res_bind]. apply IH. intros j Hj. apply Hagree. by right.
Qed.

Lemma update_local_map_agree (lm lm' : local_map.t) :
  local_map.head lm' = local_map.head lm ->
  local_map.counters lm' = local_map.counters lm ->
  local_map.prev_frames lm' !! local_map.head lm
  = local_map.prev_frames lm !! local_map.head lm ->
  local_map.prev_frame_location lm' !! local_map.head lm
  = local_map.prev_frame_location lm !! local_map.head lm ->
  (forall i, i < local_map.counters lm ->
     local_map.prev_frames lm' !! i = local_map.prev_frames lm !! i /\
     local_map.prev_frame_location lm' !! i = local_map.prev_frame_location lm !! i) ->
  local_map.update_local_map lm' = local_map.update_local_map lm.
Proof.
  intros Hh Hc Hhf Hhl Hslots. unfold local_map.update_local_map.
  rewrite Hh, Hc, Hhf, Hhl.
  destruct (local_map.counters lm =? 0); [reflexivity|].
  destruct (local_map.prev_frames lm !! local_map.head lm); [|reflexivity].
  destruct (local_map.prev_frame_location lm !! local_map.head lm); [|reflexivity].
  rewrite (fuse_slots_agree lm lm'); [reflexivity|].
  intros i Hi. apply Hslots. apply elem_of_seq in Hi. lia.
Qed.

Lemma update_local_map_same_ring (lm lm' : local_map.t) :
  same_ring lm lm' ->
  local_map.update_local_map lm' = local_map.update_local_map lm.
Proof.
  intros (Hf & Hl & Hh & Hc). apply update_local_map_agree; try assumption.
  - by rewrite Hf.
  - by rewrite Hl.
  - intros i _. by rewrite Hf, Hl.
Qed.

(** X5: the fused map is built from the valid entries only.  Two rings with
    the same head and count that agree on the slots below [counters] (the head
    among them) fuse to the same map, whatever the other slots hold. *)
Theorem fused_map_ignores_unused_slots (lm lm' : local_map.t) :
  local_map.head lm' = local_map.head lm ->
  local_map.counters lm' = local_map.counters lm ->
  local_map.head lm < local_map.counters lm ->
  (forall i, i < local_map.counters lm ->
     local_map.prev_frames lm' !! i = local_map.prev_frames lm !! i /\
     local_map.prev_frame_location lm' !! i = local_map.prev_frame_location lm !! i) ->
  local_map.update_local_map lm' = local_map.update_local_map lm.
Proof.
  intros Hh Hc Hlt Hslots.
  apply update_local_map_agree; try assumption; by apply Hslots.
Qed.

(** X6: cache coherence across [push].  If the map fuses after a push, the
    first [get_local_map()] returns that map, leaves head, count and slots as
    they are and marks the cache clean; a second read returns the same map
    without changing the state, and the cached map is what
    [update_local_map] builds from the slots. *)
Theorem cache_coherent_after_push (frame : feature_frame) (transform : Matrix4d)
    (lm : local_map.t) (fused : feature_frame) :
  local_map.update_local_map (local_map.push frame transform lm) = Ok fused ->
  exists lm1,
    local_map.get_local_map (local_map.push frame transform lm) = Ok (fused, lm1) /\
    same_ring (local_map.push frame transform lm) lm1 /\
    local_map.local_map_dirty lm1 = false /\
    local_map.get_local_map lm1 = Ok (fused, lm1) /\
    local_map.update_local_map lm1 = Ok fused.
Proof.
  intros Hfuse.
  assert (Hget : exists lm1,
            local_map.get_local_map (local_map.push frame transform lm) = Ok (fused, lm1) /\
            local_map.local_map_dirty lm1 = false /\
            local_map.local_map lm1 = fused).
  { unfold local_map.get_local_map. rewrite push_invalidates, Hfuse.
    cbn [mbind res_bind]. eexists. split; [reflexivity|]. split; reflexivity. }
  destruct Hget as (lm1 & Hget & Hclean & Hcache).
  pose proof (get_local_map_ring _ _ _ Hget) as Hring.
  exists lm1. split; [exact Hget|]. split; [exact Hring|]. split; [exact Hclean|].
  split.
  - unfold local_map.get_local_map. by rewrite Hclean, Hcache.
  - rewrite (update_local_map_same_ring _ _ Hring). exact Hfuse.
Qed.

End cache.

(** A concrete instance: one keyframe behind junk slots of two kinds. *)
Lemma fused_map_ignores_unused_slots_witness :
  let lm := @local_map.push Toy.eigen (Toy.frame_of 1 1%Q) 4%Z (@local_map.init Toy.eigen 7%Z) in
  let lm' := @local_map.push Toy.eigen (Toy.frame_of 1 1%Q) 4%Z (@local_map.init Toy.eigen 8%Z) in
  local_map.head lm < local_map.counters lm /\
  @local_map.update_local_map Toy.eigen Toy.comm lm'
  = @local_map.update_local_map Toy.eigen Toy.comm lm.
Proof.
  intros lm lm'. split; [apply le_n|].
  apply (@fused_map_ignores_unused_slots Toy.eigen Toy.comm lm lm' eq_refl eq_refl (le_n 1)).
  intros i Hi. change (i < 1) in Hi. assert (i = 0) as -> by lia.
  split; reflexivity.
Defined.

(** A concrete instance: the second keyframe of a ring. *)
Lemma cache_coherent_after_push_witness :
  let lm := @local_map.push Toy.eigen (Toy.frame_of 1 1%Q) 0%Z (@local_map.init Toy.eigen 7%Z) in
  exists fused lm1,
    @local_map.update_local_map Toy.eigen Toy.comm
      (@local_map.push Toy.eigen (Toy.frame_of 1 2%Q) 3%Z lm) = Ok fused /\
    @local_map.get_local_map Toy.eigen Toy.comm
      (@local_map.push Toy.eigen (Toy.frame_of 1 2%Q) 3%Z lm) = Ok (fused, lm1) /\
    @local_map.get_local_map Toy.eigen Toy.comm lm1 = Ok (fused, lm1).
Proof.
  intros lm.
  eassert (Hfuse : @local_map.update_local_map Toy.eigen Toy.comm
                     (@local_map.push Toy.eigen (Toy.frame_of 1 2%Q) 3%Z lm) = Ok _)
    by (vm_compute; reflexivity).
  destruct (@cache_coherent_after_push Toy.eigen Toy.comm (Toy.frame_of 1 2%Q) 3%Z lm _ Hfuse)
    as (lm1 & Hget & _ & _ & Hagain & _).
  eexists _, lm1. split; [exact Hfuse|]. split; [exact Hget|exact Hagain].
Defined.

(** * The head entry in the fused map *)

Section head_points.
Context `{Comm}.

Lemma transform_cloud_identity (range out : list PointType) :
  (forall v, mat_apply Identity v = v) ->
  local_map.transform_cloud range out Identity = out ++ range.
Proof.
  intros Hid. unfold local_map.transform_cloud. f_equal.
  induction range as [|p range IH]; [reflexivity|].
  cbn [map]. rewrite IH. f_equal.
  unfold local_map.transform_point. rewrite Hid. by destruct p.
Qed.

Lemma append_transformed_identity (src dst : option PointCloud) :
  (forall v, mat_apply Identity v = v) ->
  local_map.append_transformed src dst Identity = append_points src dst.
Proof.
  intros Hid. destruct src as [s|], dst as [d|]; cbn; try reflexivity.
  by rewrite transform_cloud_identity.
Qed.

Lemma fuse_slots_app (lm : local_map.t) (transform : Matrix4d) (l1 l2 : list nat) :
  forall result,
  local_map.fuse_slots lm transform result (l1 ++ l2)
  = (r ← local_map.fuse_slots lm transform result l1;
     local_map.fuse_slots lm transform r l2).
Proof.
  induction l1 as [|i l1 IH]; intros result; [reflexivity|].
  cbn [app local_map.fuse_slots].
  destruct (local_map.fuse_slot lm transform result i) as [r|f];
    cbn [mbind res_bind]; [apply IH|reflexivity].
Qed.

(** X26: the head's own points enter the fused map unchanged.  When the
    head's transform [m] has [m.inverse() * m] equal to the identity and the
    identity maps every vector to itself, the pass of the fusion loop over the
    head slot appends the head frame's points as they are, so
    [update_local_map] is: the passes over the slots before the head, the
    head's points appended unchanged, the passes over the slots after it, and
    the widths. *)
Theorem head_points_pass_unchanged (lm : local_map.t) (fr : feature_frame)
    (m : Matrix4d) :
  local_map.head lm < local_map.counters lm ->
  local_map.prev_frames lm !! local_map.head lm = Some fr ->
  local_map.prev_frame_location lm !! local_map.head lm = Some m ->
  mat_mul (mat_inverse m) m = Identity ->
  (forall v, mat_apply Identity v = v) ->
  (forall result,
     local_map.fuse_slot lm (mat_inverse m) result (local_map.head lm)
     = append_frame fr result) /\
  local_map.update_local_map lm
  = (let transform := mat_inverse m in
     let result :=
       {| velodyne_feature := concat null_objects (velodyne_feature fr);
          livox_feature := concat null_objects (livox_feature fr) |} in
     result ← (older ← local_map.fuse_slots lm transform result
                         (seq 0 (local_map.head lm));
               own ← append_frame fr older;
               local_map.fuse_slots lm transform own
                 (seq (S (local_map.head lm))
                      (local_map.counters lm - S (local_map.head lm))));
     Ok {| velodyne_feature :=
             {| line_features :=
                  local_map.fix_width (line_features (velodyne_feature result));
                plane_features :=
                  local_map.fix_width (plane_features (velodyne_feature result));
                non_features := non_features (velodyne_feature result) |};
           livox_feature :=
             {| line_features := line_features (livox_feature result);
                plane_features :=
                  local_map.fix_width (plane_features (livox_feature result));
                non_features :=
                  local_map.fix_width (non_features (livox_feature result)) |} |}).
Proof.
  intros Hhead Hfr Hloc Hinv Hid.
  assert (Hslot : forall result,
            local_map.fuse_slot lm (mat_inverse m) result (local_map.head lm)
            = append_frame fr result).
  { intros result. unfold local_map.fuse_slot, append_frame.
    rewrite Hloc, Hfr, Hinv. by rewrite !append_transformed_identity. }
  split; [exact Hslot|].
  unfold local_map.update_local_map.
  destruct (Nat.eqb_spec (local_map.counters lm) 0) as [Hz|_]; [lia|].
  rewrite Hfr, Hloc. cbv zeta.
  replace (seq 0 (local_map.counters lm))
    with (seq 0 (local_map.head lm)
          ++ local_map.head lm
             :: seq (S (local_map.head lm))
                    (local_map.counters lm - S (local_map.head lm))).
  2:{ replace (local_map.counters lm)
        with (local_map.head lm + S (local_map.counters lm - S (local_map.head lm)))
        at 2 by lia.
      by rewrite seq_app. }
  rewrite fuse_slots_app.
  destruct (local_map.fuse_slots lm (mat_inverse m) _ (seq 0 (local_map.head lm)))
    as [older|f]; cbn [mbind res_bind local_map.fuse_slots]; [|reflexivity].
  rewrite Hslot. reflexivity.
Qed.

End head_points.

Lemma Qplus_zero_r_eq (a : Q) : (a + inject_Z 0)%Q = a.
Proof.
  destruct a as [n d]. unfold Qplus, inject_Z. cbn [Qnum Qden].
  rewrite Z.mul_1_r, Z.add_0_r, Pos.mul_1_r. reflexivity.
Qed.

(** A concrete instance: a ring of two keyframes at offsets 0 and 3, with
    translations along x. *)
Lemma head_points_pass_unchanged_witness :
  let lm := @local_map.push Toy.eigen (Toy.frame_of 1 2%Q) 3%Z
              (@local_map.push Toy.eigen (Toy.frame_of 1 1%Q) 0%Z
                 (@local_map.init Toy.eigen 7%Z)) in
  local_map.head lm < local_map.counters lm /\
  @mat_mul Toy.eigen (@mat_inverse Toy.eigen 3%Z) 3%Z = @Identity Toy.eigen /\
  (forall v, @mat_apply Toy.eigen (@Identity Toy.eigen) v = v) /\
  @local_map.fuse_slot Toy.eigen lm (@mat_inverse Toy.eigen 3%Z)
    (Toy.frame_of 0 0%Q) 1
  = append_frame (Toy.frame_of 1 2%Q) (Toy.frame_of 0 0%Q).
Proof.
  intros lm.
  assert (Hid : forall v, @mat_apply Toy.eigen (@Identity Toy.eigen) v = v).
  { intros [[vx vy] vz]. cbn. by rewrite Qplus_zero_r_eq. }
  split; [apply le_n|]. split; [reflexivity|]. split; [exact Hid|].
  destruct (@head_points_pass_unchanged Toy.eigen Toy.comm lm (Toy.frame_of 1 2%Q)
              3%Z (le_n 2) eq_refl eq_refl eq_refl Hid) as [Hslot _].
  apply Hslot.
Defined.

(** * Further properties of the feature stage *)

Section feature_stage_more.
Context `{Comm}.

(** The frame a published step carries. *)
Lemma features_step_frame (self : feature_thread.t) (msg m' : synced_message)
    (frame : feature_frame) :
  feature_thread.features_step self msg = Ok (Some (m', frame)) ->
  m' = msg /\
  velodyne_feature frame
  = (if feature_thread.use_velodyne self
     then feature_velodyne (velodyne msg) null_objects else null_objects) /\
  (feature_thread.use_livox self = false -> livox_feature frame = null_objects) /\
  (feature_thread.use_livox self = true ->
     exists plane non,
       plane_features (feature_livox (livox msg) null_objects) = Some plane /\
       non_features (feature_livox (livox msg) null_objects) = Some non /\
       livox_feature frame
       = {| line_features := line_features (feature_livox (livox msg) null_objects);
            plane_features :=
              Some (transformPointCloud plane (feature_thread.livox_transform self));
            non_features :=
              Some (transformPointCloud non (feature_thread.livox_transform self)) |}).
Proof.
  unfold feature_thread.features_step, feature_thread.velodyne_branch,
    feature_thread.livox_branch, deref.
  cbn [velodyne_feature livox_feature null_frame].
  destruct (feature_thread.use_velodyne self); cbn [mbind res_bind].
  - destruct (line_features (feature_velodyne (velodyne msg) null_objects))
      as [line|]; cbn [mbind res_bind]; [|discriminate].
    destruct (cloud_size line <? 20); cbn [mbind res_bind]; [discriminate|].
    destruct (plane_features (feature_velodyne (velodyne msg) null_objects))
      as [plane|]; cbn [mbind res_bind]; [|discriminate].
    destruct (cloud_size plane <? 100); cbn [mbind res_bind]; [discriminate|].
    cbn [velodyne_feature livox_feature].
    destruct (feature_thread.use_livox self); cbn [mbind res_bind].
    + destruct (plane_features (feature_livox (livox msg) null_objects))
        as [lp|]; cbn [mbind res_bind]; [|discriminate].
      destruct (cloud_empty lp); cbn [mbind res_bind]; [discriminate|].
      destruct (non_features (feature_livox (livox msg) null_objects))
        as [ln|]; cbn [mbind res_bind]; [|discriminate].
      destruct (cloud_empty ln); cbn [mbind res_bind]; [discriminate|].
      intros E; simplify_eq. cbn [velodyne_feature livox_feature].
      split; [reflexivity|]. split; [reflexivity|]. split; [discriminate|].
      intros _. by exists lp, ln.
    + intros E; simplify_eq. cbn [velodyne_feature livox_feature].
      split; [reflexivity|]. split; [reflexivity|]. split; [reflexivity|discriminate].
  - cbn [velodyne_feature livox_feature null_frame mbind res_bind].
    destruct (feature_thread.use_livox self); cbn [mbind res_bind].
    + destruct (plane_features (feature_livox (livox msg) null_objects))
        as [lp|]; cbn [mbind res_bind]; [|discriminate].
      destruct (cloud_empty lp); cbn [mbind res_bind]; [discriminate|].
      destruct (non_features (feature_livox (livox msg) null_objects))
        as [ln|]; cbn [mbind res_bind]; [|discriminate].
      destruct (cloud_empty ln); cbn [mbind res_bind]; [discriminate|].
      intros E; simplify_eq. cbn [velodyne_feature livox_feature].
      split; [reflexivity|]. split; [reflexivity|]. split; [discriminate|].
      intros _. by exists lp, ln.
    + intros E; simplify_eq. cbn [velodyne_feature livox_feature].
      split; [reflexivity|]. split; [reflexivity|]. split; [reflexivity|discriminate].
Qed.

(** X7: what a published frame holds.  The message goes out unchanged; the
    spin features are the kernel's output as it is (or absent when the branch
    is off); the solid features are absent when the branch is off, and
    otherwise the kernel's plane and non-feature clouds, each transformed by
    the stage's [livox_transform]. *)
Theorem published_frame_contents (self : feature_thread.t)
    (msg m' : synced_message) (frame : feature_frame) :
  feature_thread.features_step self msg = Ok (Some (m', frame)) ->
  m' = msg /\
  velodyne_feature frame
  = (if feature_thread.use_velodyne self
     then feature_velodyne (velodyne msg) null_objects else null_objects) /\
  (feature_thread.use_livox self = false -> livox_feature frame = null_objects) /\
  (feature_thread.use_livox self = true ->
     exists plane non,
       plane_features (feature_livox (livox msg) null_objects) = Some plane /\
       non_features (feature_livox (livox msg) null_objects) = Some non /\
       livox_feature frame
       = {| line_features := line_features (feature_livox (livox msg) null_objects);
            plane_features :=
              Some (transformPointCloud plane (feature_thread.livox_transform self));
            non_features :=
              Some (transformPointCloud non (feature_thread.livox_transform self)) |}).
Proof. exact (features_step_frame self msg m' frame). Qed.

(** X8: the two stages' checks on the spin features compose.  A frame
    published with the spin branch on, whose kernel produced no non-feature
    cloud, passes [feature_ok] on its spin features: the odometry cannot
    reject it as "velodyne not enough features". *)
Theorem published_spin_features_pass_feature_ok (self : feature_thread.t)
    (msg m' : synced_message) (frame : feature_frame) :
  feature_thread.features_step self msg = Ok (Some (m', frame)) ->
  feature_thread.use_velodyne self = true ->
  non_features (feature_velodyne (velodyne msg) null_objects) = None ->
  feature_ok (velodyne_feature frame) = true.
Proof.
  intros Hstep Hon Hnon.
  destruct (features_step_frame self msg m' frame Hstep) as (-> & Hvf & _).
  rewrite Hon in Hvf. rewrite Hvf.
  assert (Hpass : branches_pass self msg)
    by (apply features_step_publishes_iff; by exists frame).
  destruct Hpass as [Hv _].
  destruct (Hv Hon) as (line & plane & Hl & Hp & H20 & H100).
  unfold feature_ok, short_of. rewrite Hl, Hp, Hnon.
  destruct (Nat.ltb_spec (cloud_size line) 10); [lia|].
  destruct (Nat.ltb_spec (cloud_size plane) 100); [lia|]. reflexivity.
Qed.

(** X9: a stop request ends the batch.  If the flag reads false at the first
    [n] tests of the loop condition and true at the next, the delegate calls
    are those of the first [n] messages, and no later message is touched. *)
Theorem stop_request_cuts_batch (self : feature_thread.t)
    (should_stop : nat -> bool) (n : nat) :
  forall (k : nat) (pq : list synced_message),
  (forall j, j < n -> should_stop (k + j) = false) ->
  should_stop (k + n) = true ->
  feature_thread.features_batch self should_stop k pq
  = feature_thread.features_batch self (fun _ => false) k (take n pq).
Proof.
  induction n as [|n IH]; intros k pq Hrun Hstop.
  - rewrite Nat.add_0_r in Hstop. rewrite take_0.
    destruct pq as [|msg rest]; [reflexivity|].
    cbn [feature_thread.features_batch]. by rewrite Hstop.
  - destruct pq as [|msg rest]; [reflexivity|].
    cbn [take feature_thread.features_batch].
    assert (Hk : should_stop k = false)
      by (rewrite <- (Nat.add_0_r k); apply Hrun; lia).
    rewrite Hk. rewrite (IH (S k) rest); [reflexivity| |].
    + intros j Hj. replace (S k + j) with (k + S j) by lia. apply Hrun. lia.
    + replace (S k + n) with (k + S n) by lia. exact Hstop.
Qed.

End feature_stage_more.

(** A concrete instance: both branches on. *)
Lemma published_frame_contents_witness :
  let self := {| feature_thread.livox_transform := 2%Z : @Matrix4d Toy.eigen;
                 feature_thread.use_livox := true;
                 feature_thread.use_velodyne := true |} in
  let msg := {| time := 0%Q; velodyne := Toy.cloud_of 100 1%Q;
                livox := Toy.cloud_of 1 1%Q |} in
  exists frame,
    @feature_thread.features_step Toy.eigen Toy.comm self msg = Ok (Some (msg, frame)) /\
    velodyne_feature frame = @feature_velodyne Toy.eigen Toy.comm (velodyne msg) null_objects /\
    plane_features (livox_feature frame) = Some (Toy.cloud_of 1 3%Q).
Proof.
  intros self msg.
  eassert (Hstep : @feature_thread.features_step Toy.eigen Toy.comm self msg
                   = Ok (Some (msg, _))) by (vm_compute; reflexivity).
  destruct (@published_frame_contents Toy.eigen Toy.comm self msg msg _ Hstep)
    as (_ & Hv & _ & _).
  eexists. split; [exact Hstep|]. split; [exact Hv|]. vm_compute. reflexivity.
Defined.

(** A concrete instance: a hundred points in the spin cloud. *)
Lemma published_spin_features_pass_feature_ok_witness :
  let self := {| feature_thread.livox_transform := 2%Z : @Matrix4d Toy.eigen;
                 feature_thread.use_livox := true;
                 feature_thread.use_velodyne := true |} in
  let msg := {| time := 0%Q; velodyne := Toy.cloud_of 100 1%Q;
                livox := Toy.cloud_of 1 1%Q |} in
  exists frame,
    @feature_thread.features_step Toy.eigen Toy.comm self msg = Ok (Some (msg, frame)) /\
    feature_ok (velodyne_feature frame) = true /\
    feature_ok (livox_feature frame) = false.
Proof.
  intros self msg.
  eassert (Hstep : @feature_thread.features_step Toy.eigen Toy.comm self msg
                   = Ok (Some (msg, _))) by (vm_compute; reflexivity).
  eexists. split; [exact Hstep|]. split; [|vm_compute; reflexivity].
  apply (@published_spin_features_pass_feature_ok Toy.eigen Toy.comm self msg msg _
           Hstep eq_refl eq_refl).
Defined.

(** A concrete instance: the flag is raised after the first message. *)
Lemma stop_request_cuts_batch_witness :
  let self := {| feature_thread.livox_transform := 0%Z : @Matrix4d Toy.eigen;
                 feature_thread.use_livox := true;
                 feature_thread.use_velodyne := true |} in
  let good t := {| time := t; velodyne := Toy.cloud_of 100 1%Q;
                   livox := Toy.cloud_of 100 1%Q |} in
  let should_stop := fun j => 1 <=? j in
  should_stop 1 = true /\
  @feature_thread.features_batch Toy.eigen Toy.comm self should_stop 0 [good 0%Q; good 1%Q]
  = @feature_thread.features_batch Toy.eigen Toy.comm self (fun _ => false) 0 [good 0%Q].
Proof.
  intros self good should_stop. split; [reflexivity|].
  apply (@stop_request_cuts_batch Toy.eigen Toy.comm self should_stop 1 0
           [good 0%Q; good 1%Q]).
  - intros j Hj. assert (j = 0) as -> by lia. reflexivity.
  - reflexivity.
Defined.

(** * Further properties of start-up *)

Section startup_more.
Context `{Comm}.

Lemma read_livox_cab_prefix (c0 c1 c2 c3 c4 c5 : Q) (rest : list Q) :
  read_livox_cab ([c0; c1; c2; c3; c4; c5] ++ rest)
  = Ok (mkTransform c0 c1 c2 c3 c4 c5).
Proof. reflexivity. Qed.

Lemma read_livox_cab_short (livox_cab : list Q) :
  length livox_cab < 6 -> read_livox_cab livox_cab = Fault OutOfRange.
Proof.
  intros Hlen.
  destruct livox_cab as [|c0 [|c1 [|c2 [|c3 [|c4 [|c5 rest]]]]]];
    try reflexivity.
  simpl in Hlen. lia.
Qed.

(** X10: a feature stage that the constructor returns has at least one sensor
    branch enabled, and its flags are the configured ones unless both were
    off. *)
Theorem constructed_stage_has_a_branch (p : startup_params)
    (ft : feature_thread.t) :
  snd (feature_thread.construct p) = Ok ft ->
  (feature_thread.use_livox ft = true \/ feature_thread.use_velodyne ft = true) /\
  (~ both_sensors_disabled p ->
     feature_thread.use_livox ft = param_use_livox p /\
     feature_thread.use_velodyne ft = param_use_velodyne p).
Proof.
  unfold feature_thread.construct, both_sensors_disabled.
  destruct (read_livox_cab (param_livox_transform p)); [|discriminate].
  cbn [snd]. intros [= <-]. cbn [feature_thread.use_livox feature_thread.use_velodyne].
  destruct (param_use_livox p), (param_use_velodyne p); cbn [negb andb];
    (split; [auto|]); intros Hnot; try (split; reflexivity).
  contradiction Hnot. by split.
Qed.

(** X11: with six or more elements in the extrinsic list both constructors
    return, they hold the same [livox_transform], namely the inverse of the
    matrix of the first six elements, and the elements after the sixth have no
    effect. *)
Theorem constructors_read_first_six (p : startup_params)
    (c0 c1 c2 c3 c4 c5 : Q) (rest : list Q) :
  param_livox_transform p = [c0; c1; c2; c3; c4; c5] ++ rest ->
  exists ft mt,
    snd (feature_thread.construct p) = Ok ft /\
    snd (mapping_thread.construct p) = Ok mt /\
    feature_thread.livox_transform ft
    = mat_inverse (to_eigen (mkTransform c0 c1 c2 c3 c4 c5)) /\
    mapping_thread.livox_transform mt = feature_thread.livox_transform ft /\
    mapping_thread.degenerate_threshold mt = param_degenerate_threshold p.
Proof.
  intros Hl. unfold feature_thread.construct, mapping_thread.construct.
  rewrite Hl, read_livox_cab_prefix. cbn [snd].
  do 2 eexists. repeat split.
Qed.

(** X12: with fewer than six elements both constructors subscript the list
    out of range, after logging the size diagnostic. *)
Theorem constructors_short_list (p : startup_params) :
  length (param_livox_transform p) < 6 ->
  snd (feature_thread.construct p) = Fault OutOfRange /\
  snd (mapping_thread.construct p) = Fault OutOfRange /\
  FATAL_livox_transform_size (length (param_livox_transform p))
    ∈ fst (feature_thread.construct p) /\
  FATAL_livox_transform_size (length (param_livox_transform p))
    ∈ fst (mapping_thread.construct p).
Proof.
  intros Hlen. unfold feature_thread.construct, mapping_thread.construct.
  rewrite (read_livox_cab_short _ Hlen), size_check_reports by lia.
  cbn [fst snd]. repeat split; log_member.
Qed.

(** X13: the fatal diagnostics are exact.  The feature constructor logs a
    fatal line if and only if the extrinsic list has a length other than 6 or
    both sensor branches are off; the mapping constructor, which does not look
    at the sensor flags, if and only if the length is not 6. *)
Theorem fatal_logged_iff_bad_config (p : startup_params) :
  ((exists d, d ∈ fst (feature_thread.construct p) /\ is_fatal d = true)
   <-> bad_config p) /\
  ((exists d, d ∈ fst (mapping_thread.construct p) /\ is_fatal d = true)
   <-> length (param_livox_transform p) <> 6).
Proof.
  unfold bad_config, both_sensors_disabled, feature_thread.construct,
    mapping_thread.construct, size_check.
  destruct (Nat.eqb_spec (length (param_livox_transform p)) 6) as [E6|N6];
    destruct (read_livox_cab (param_livox_transform p)) as [tr|f];
    destruct (param_use_livox p), (param_use_velodyne p);
    destruct (Qltb (param_degenerate_threshold p) 5);
    cbn [negb andb fst app]; split; split;
    try (intros (d & Hd & Hf);
         repeat (apply elem_of_cons in Hd as [->|Hd]; [try discriminate Hf|]);
         try (by apply elem_of_nil in Hd);
         first [ by left | by right | by (right; split) | done ]);
    try (intros _; eexists; split; [by left|reflexivity]);
    try (intros [?|[? ?]]; first [contradiction | discriminate]);
    try (intros ?; contradiction).
Qed.

End startup_more.

(** A concrete instance: the default configuration. *)
Lemma constructed_stage_has_a_branch_witness :
  exists ft,
    snd (@feature_thread.construct Toy.eigen Toy.comm Toy.both_disabled) = Ok ft /\
    (feature_thread.use_livox ft = true \/ feature_thread.use_velodyne ft = true).
Proof.
  eassert (Hc : snd (@feature_thread.construct Toy.eigen Toy.comm Toy.both_disabled)
                = Ok _) by reflexivity.
  eexists. split; [exact Hc|].
  apply (@constructed_stage_has_a_branch Toy.eigen Toy.comm Toy.both_disabled _ Hc).
Defined.

(** A concrete instance: seven elements. *)
Lemma constructors_read_first_six_witness :
  let p := {| param_use_livox := true; param_use_velodyne := true;
              param_livox_transform := [1; 2; 3; 0; 0; 0; 9]%Q;
              param_degenerate_threshold := 10%Q |} in
  exists ft mt,
    snd (@feature_thread.construct Toy.eigen Toy.comm p) = Ok ft /\
    snd (@mapping_thread.construct Toy.eigen Toy.comm p) = Ok mt /\
    feature_thread.livox_transform ft = (-1)%Z /\
    mapping_thread.livox_transform mt = feature_thread.livox_transform ft.
Proof.
  intros p.
  destruct (@constructors_read_first_six Toy.eigen Toy.comm p 1%Q 2%Q 3%Q 0%Q 0%Q 0%Q
              [9%Q] eq_refl) as (ft & mt & Hf & Hm & Hinv & Hsame & _).
  exists ft, mt. split; [exact Hf|]. split; [exact Hm|]. split; [exact Hinv|exact Hsame].
Defined.

(** A concrete instance: five elements. *)
Lemma constructors_short_list_witness :
  let p := {| param_use_livox := true; param_use_velodyne := true;
              param_livox_transform := [1; 2; 3; 0; 0]%Q;
              param_degenerate_threshold := 10%Q |} in
  length (param_livox_transform p) < 6 /\
  snd (@feature_thread.construct Toy.eigen Toy.comm p) = Fault OutOfRange.
Proof.
  intros p. split; [apply le_n|].
  apply (@constructors_short_list Toy.eigen Toy.comm p (le_n 6)).
Defined.

(** * Further properties of the registration *)

Lemma Qmult_comm_eq (a b : Q) : (a * b)%Q = (b * a)%Q.
Proof.
  unfold Qmult. f_equal; [apply Z.mul_comm|apply Pos.mul_comm].
Qed.

Lemma Qsquare_nonneg (v : Q) : (0 <= v * v)%Q.
Proof.
  unfold Qle, Qmult. cbn [Qnum Qden]. rewrite Z.mul_1_r. apply Z.square_nonneg.
Qed.

Section registration_more.
Context `{Residual}.

Lemma AtA_symmetric (N : Ab_result) (r c : nat) : AtA N r c = AtA N c r.
Proof.
  unfold AtA. generalize 0%Q. induction (seq 0 (top N)) as [|k l IH]; intros acc.
  - reflexivity.
  - cbn [fold_left]. rewrite (Qmult_comm_eq (A N k r) (A N k c)). apply IH.
Qed.

Lemma AtA_diagonal_nonneg (N : Ab_result) (r : nat) : (0 <= AtA N r r)%Q.
Proof.
  unfold AtA.
  assert (Hgen : forall l acc, (0 <= acc)%Q ->
            (0 <= fold_left (fun acc k => (acc + A N k r * A N k r)%Q) l acc)%Q).
  { induction l as [|k l IH]; intros acc Hacc; [exact Hacc|].
    cbn [fold_left]. apply IH.
    rewrite <- (Qplus_0_l 0). apply Qplus_le_compat; [exact Hacc|apply Qsquare_nonneg]. }
  apply Hgen. apply Qle_refl.
Qed.

(** X14: the system handed to the solver is symmetric with a non-negative
    diagonal on every iteration, with or without the 0.5 added on the first;
    [ATA] itself is symmetric for every pair of indices. *)
Theorem normal_matrix_symmetric (i : nat) (threshold : Q) (N : Ab_result)
    (r c : nat) :
  r < 6 -> c < 6 ->
  AtA N r c = AtA N c r /\
  normal_matrix i threshold N r c = normal_matrix i threshold N c r /\
  (0 <= normal_matrix i threshold N r r)%Q.
Proof.
  intros Hr Hc. split; [apply AtA_symmetric|].
  unfold normal_matrix.
  destruct (i =? 0); [|split; [apply AtA_symmetric|apply AtA_diagonal_nonneg]].
  unfold remove_degenerate.
  destruct (scan_degenerate Q Qltb (eigenvalues_real (AtA N)) threshold 0 6).
  - rewrite !bump_diagonal_coeff by assumption.
    rewrite (Nat.eqb_sym c r), Nat.eqb_refl, (AtA_symmetric N c r). split.
    + reflexivity.
    + rewrite <- (Qplus_0_l 0).
      apply Qplus_le_compat; [apply AtA_diagonal_nonneg|discriminate].
  - split; [apply AtA_symmetric|apply AtA_diagonal_nonneg].
Qed.

End registration_more.

(** A concrete instance: the one-row system. *)
Lemma normal_matrix_symmetric_witness :
  let N := @Ab Toy.residual_one [] Transform_zero in
  0 < 6 /\ 1 < 6 /\
  @normal_matrix Toy.residual_one 0 10%Q N 0 1 = @normal_matrix Toy.residual_one 0 10%Q N 1 0.
Proof.
  intros N.
  assert (H0 : 0 < 6) by (apply Nat.lt_0_succ).
  assert (H1 : 1 < 6) by (apply -> Nat.succ_lt_mono; apply Nat.lt_0_succ).
  split; [exact H0|]. split; [exact H1|].
  apply (@normal_matrix_symmetric Toy.residual_one 0 10%Q N 0 1 H0 H1).
Defined.

(** * Further properties of the odometry *)

Section odometry_more.
Context `{Comm} `{!Loop} `{!Residual}.

Lemma tr_push frame (transform : Matrix4d) (lm : local_map.t) :
  local_map.wf lm -> local_map.tr (local_map.push frame transform lm) = Ok transform.
Proof.
  intros Hwf. apply (tr_back_entry _ frame); [|by apply back_entry_push_head].
  destruct Hwf as (_ & _ & _ & Hc). rewrite push_counters by exact Hc. lia.
Qed.

Lemma safe_bind {T U} (m : res T) (f : T -> res U) :
  safe m -> (forall a, m = Ok a -> safe (f a)) -> safe (m ≫= f).
Proof.
  destruct m as [a|e]; cbn [mbind res_bind]; intros Hm Hf; [by apply Hf|exact Hm].
Qed.

Lemma append_transformed_safe (src dst : option PointCloud) (m : Matrix4d) :
  safe (local_map.append_transformed src dst m).
Proof. destruct src, dst; simpl; auto. Qed.

Lemma fuse_slot_safe (lm : local_map.t) (transform : Matrix4d)
    (result : feature_frame) (i : nat) :
  i < length (local_map.prev_frames lm) ->
  i < length (local_map.prev_frame_location lm) ->
  safe (local_map.fuse_slot lm transform result i).
Proof.
  intros Hf Hl. unfold local_map.fuse_slot.
  destruct (lookup_lt_is_Some_2 _ _ Hf) as [fr ->].
  destruct (lookup_lt_is_Some_2 _ _ Hl) as [loc ->].
  repeat (apply safe_bind; [apply append_transformed_safe|intros ? _]).
  exact I.
Qed.

Lemma fuse_slots_safe (lm : local_map.t) (transform : Matrix4d) (slots : list nat) :
  (forall i, i ∈ slots ->
     i < length (local_map.prev_frames lm) /\
     i < length (local_map.prev_frame_location lm)) ->
  forall result, safe (local_map.fuse_slots lm transform result slots).
Proof.
  induction slots as [|i rest IH]; intros Hin result; [exact I|].
  cbn [local_map.fuse_slots]. apply safe_bind.
  - apply fuse_slot_safe; apply Hin; left.
  - intros result' _. apply IH. intros j Hj. apply Hin. by right.
Qed.

Lemma update_local_map_safe (lm : local_map.t) :
  local_map.wf lm -> local_map.counters lm <> 0 ->
  safe (local_map.update_local_map lm).
Proof.
  intros (Hf & Hl & Hh & Hc) Hne. unfold local_map.previous_frame_count in *.
  unfold local_map.update_local_map.
  destruct (Nat.eqb_spec (local_map.counters lm) 0); [contradiction|].
  destruct (lookup_lt_is_Some_2 (local_map.prev_frames lm) (local_map.head lm))
    as [hf ->]; [lia|].
  destruct (lookup_lt_is_Some_2 (local_map.prev_frame_location lm) (local_map.head lm))
    as [hl ->]; [lia|].
  apply safe_bind; [|intros ? _; exact I].
  apply fuse_slots_safe. intros i Hi. apply elem_of_seq in Hi. lia.
Qed.

Lemma get_local_map_safe (lm : local_map.t) :
  local_map.wf lm -> local_map.counters lm <> 0 ->
  safe (local_map.get_local_map lm).
Proof.
  intros Hwf Hne. unfold local_map.get_local_map.
  destruct (local_map.local_map_dirty lm); [|exact I].
  apply safe_bind; [by apply update_local_map_safe|intros ? _; exact I].
Qed.

(** The states [update_current_frame] can return. *)
Lemma update_current_frame_cases (frame : feature_frame)
    (st st1 : visual_odom_v2.t) (Mr : result_of Transform string) :
  visual_odom_v2.update_current_frame frame st = Ok (Mr, st1) ->
  (st1 = st /\ exists e, Mr = fail e) \/
  (local_map.empty (visual_odom_v2.local_maps st) = true /\
   Mr = ok Transform_zero /\
   st1 = visual_odom_v2.with_local_maps st
           (local_map.push frame Identity (visual_odom_v2.local_maps st))) \/
  (local_map.empty (visual_odom_v2.local_maps st) = false /\
   exists M lm,
     local_map.get_local_map (visual_odom_v2.local_maps st) = Ok (M, lm) /\
     let Tr := LM2 frame M (visual_odom_v2.degenerate_threshold st)
                 (visual_odom_v2.next_initial_guess st) in
     Mr = ok Tr /\
     st1 = visual_odom_v2.with_next_initial_guess
             (visual_odom_v2.with_local_maps st lm) Tr).
Proof.
  unfold visual_odom_v2.update_current_frame.
  destruct (negb (feature_ok (velodyne_feature frame)));
    [intros [= <- <-]; left; split; [reflexivity|by eexists]|].
  destruct (negb (feature_ok (livox_feature frame)));
    [intros [= <- <-]; left; split; [reflexivity|by eexists]|].
  destruct (local_map.empty (visual_odom_v2.local_maps st)).
  - intros [= <- <-]. right. left. by repeat split.
  - destruct (local_map.get_local_map (visual_odom_v2.local_maps st))
      as [[M lm]|]; [|discriminate].
    cbn [mbind res_bind]. intros [= <- <-]. right. right.
    split; [reflexivity|]. exists M, lm. by repeat split.
Qed.

(** What [update_current_frame] keeps, whatever it returns. *)
Lemma update_current_frame_keeps (frame : feature_frame)
    (st st1 : visual_odom_v2.t) (Mr : result_of Transform string) :
  local_map.wf (visual_odom_v2.local_maps st) ->
  visual_odom_v2.update_current_frame frame st = Ok (Mr, st1) ->
  local_map.wf (visual_odom_v2.local_maps st1) /\
  visual_odom_v2.config st1 = visual_odom_v2.config st /\
  visual_odom_v2.degenerate_threshold st1 = visual_odom_v2.degenerate_threshold st /\
  visual_odom_v2.final_path st1 = visual_odom_v2.final_path st /\
  visual_odom_v2.loop_markers st1 = visual_odom_v2.loop_markers st /\
  local_map.counters (visual_odom_v2.local_maps st)
  <= local_map.counters (visual_odom_v2.local_maps st1) /\
  (forall Tr, Mr = ok Tr ->
     local_map.counters (visual_odom_v2.local_maps st1) <> 0).
Proof.
  intros Hwf Hupd.
  destruct (update_current_frame_cases _ _ _ _ Hupd)
    as [[-> [e ->]]|[(He & -> & ->)|(He & M & lm & Hget & HMr & ->)]].
  - split; [exact Hwf|]. repeat split; done.
  - cbn [visual_odom_v2.with_local_maps visual_odom_v2.local_maps
         visual_odom_v2.config visual_odom_v2.degenerate_threshold
         visual_odom_v2.final_path visual_odom_v2.loop_markers].
    pose proof Hwf as (_ & _ & _ & Hc).
    split; [by apply push_wf|]. rewrite push_counters by exact Hc.
    unfold local_map.previous_frame_count in Hc.
    repeat split; try done; [lia|intros _ _; lia].
  - cbn [visual_odom_v2.with_next_initial_guess visual_odom_v2.with_local_maps
         visual_odom_v2.local_maps visual_odom_v2.config
         visual_odom_v2.degenerate_threshold visual_odom_v2.final_path
         visual_odom_v2.loop_markers].
    pose proof (get_local_map_ring _ _ _ Hget) as Hring.
    split; [by eapply same_ring_wf|].
    destruct Hring as (_ & _ & _ & Hc). rewrite Hc.
    unfold local_map.empty in He. apply Nat.eqb_neq in He.
    repeat split; try done.
Qed.

Lemma update_current_frame_safe (frame : feature_frame) (st : visual_odom_v2.t) :
  local_map.wf (visual_odom_v2.local_maps st) ->
  safe (visual_odom_v2.update_current_frame frame st).
Proof.
  intros Hwf. unfold visual_odom_v2.update_current_frame.
  destruct (negb (feature_ok (velodyne_feature frame))); [exact I|].
  destruct (negb (feature_ok (livox_feature frame))); [exact I|].
  destruct (local_map.empty (visual_odom_v2.local_maps st)) eqn:He; [exact I|].
  apply safe_bind.
  - apply get_local_map_safe; [exact Hwf|].
    unfold local_map.empty in He. by apply Nat.eqb_neq.
  - intros [M lm] _. exact I.
Qed.

Lemma loop_detection_keeps (st st' : visual_odom_v2.t) cloud frame
    (M M' : Matrix4d) :
  visual_odom_v2.loop_detection cloud frame M st = Ok (M', st') ->
  visual_odom_v2.config st' = visual_odom_v2.config st /\
  visual_odom_v2.degenerate_threshold st' = visual_odom_v2.degenerate_threshold st /\
  visual_odom_v2.next_initial_guess st' = visual_odom_v2.next_initial_guess st /\
  path_stamp (visual_odom_v2.final_path st') = path_stamp (visual_odom_v2.final_path st) /\
  marker_stamp (visual_odom_v2.loop_markers st')
  = marker_stamp (visual_odom_v2.loop_markers st) /\
  visual_odom_v2.loop st'
  = snd (loop_var_loop_detection (visual_odom_v2.loop st) cloud frame M).
Proof.
  unfold visual_odom_v2.loop_detection.
  destruct (loop_var_loop_detection _ _ _ _) as [k lp].
  destruct (k =? 0); [by intros [= _ <-]|].
  destruct (visual_odom_v2.set_from_loop _ _ _); [|discriminate].
  cbn [mbind res_bind]. by intros [= _ <-].
Qed.

Lemma stamps_kept (k : nat) (lp : loop_var) (ps ps' : list PoseStamped) :
  length ps' = length ps ->
  (forall j p, ps !! j = Some p ->
     ps' !! j = Some (if k <=? j
                      then {| stamp := stamp p; pose := to_ros_pose (loop_var_tr lp j) |}
                      else p)) ->
  stamp <$> ps' = stamp <$> ps.
Proof.
  intros Hlen Hget. apply list_eq. intros j. rewrite !list_lookup_fmap.
  destruct (ps !! j) as [p|] eqn:Hj.
  - rewrite (Hget j p Hj). cbn. by destruct (k <=? j).
  - apply lookup_ge_None in Hj. rewrite <- Hlen in Hj.
    apply lookup_ge_None in Hj. by rewrite Hj.
Qed.

(** The promotion path of [mapping] in full. *)
Lemma promote_full (st1 : visual_odom_v2.t) cloud frame (time : ros_Time)
    (M : Matrix4d) :
  local_map.wf (visual_odom_v2.local_maps st1) ->
  let pushed :=
    visual_odom_v2.with_loop_markers
      (visual_odom_v2.with_final_path
         (visual_odom_v2.with_local_maps st1
            (local_map.push frame M (visual_odom_v2.local_maps st1)))
         {| path_stamp := time;
            poses := poses (visual_odom_v2.final_path st1)
                     ++ [ {| stamp := time; pose := to_ros_pose M |} ] |})
      {| marker_stamp := time;
         marker_points := marker_points (visual_odom_v2.loop_markers st1) |} in
  exists M' st',
    (if visual_odom_v2_config.enable_loop (visual_odom_v2.config pushed)
     then '(M', st) ← visual_odom_v2.loop_detection cloud (velodyne_feature frame) M pushed;
          Ok (Some M', st)
     else Ok (Some M, pushed)) = Ok (Some M', st') /\
    local_map.wf (visual_odom_v2.local_maps st') /\
    local_map.tr (visual_odom_v2.local_maps st') = Ok M' /\
    visual_odom_v2.config st' = visual_odom_v2.config st1 /\
    visual_odom_v2.degenerate_threshold st' = visual_odom_v2.degenerate_threshold st1 /\
    stamp <$> poses (visual_odom_v2.final_path st')
    = (stamp <$> poses (visual_odom_v2.final_path st1)) ++ [time] /\
    path_stamp (visual_odom_v2.final_path st') = time /\
    marker_stamp (visual_odom_v2.loop_markers st') = time /\
    (visual_odom_v2_config.enable_loop (visual_odom_v2.config st1) = false ->
     M' = M /\
     poses (visual_odom_v2.final_path st')
     = poses (visual_odom_v2.final_path st1)
       ++ [ {| stamp := time; pose := to_ros_pose M |} ]).
Proof.
  intros Hwf pushed.
  assert (Hwfp : local_map.wf (visual_odom_v2.local_maps pushed))
    by (apply push_wf; exact Hwf).
  assert (Htrp : local_map.tr (visual_odom_v2.local_maps pushed) = Ok M)
    by (apply tr_push; exact Hwf).
  assert (Hsp : stamp <$> poses (visual_odom_v2.final_path pushed)
                = (stamp <$> poses (visual_odom_v2.final_path st1)) ++ [time]).
  { subst pushed. cbn [visual_odom_v2.final_path visual_odom_v2.with_loop_markers
                       visual_odom_v2.with_final_path poses].
    by rewrite fmap_app. }
  change (visual_odom_v2.config pushed) with (visual_odom_v2.config st1).
  destruct (visual_odom_v2_config.enable_loop (visual_odom_v2.config st1)) eqn:Hen.
  - destruct (loop_var_loop_detection (visual_odom_v2.loop pushed) cloud
                (velodyne_feature frame) M) as [k lp] eqn:Hdet.
    destruct (loop_detection_spec pushed cloud (velodyne_feature frame) M k lp
                Hwfp Hdet) as (st' & Hrun & Hzero & Hpos).
    pose proof (loop_detection_keeps _ _ _ _ _ _ Hrun) as (Hcfg & Hthr & _ & Hps & Hms & _).
    rewrite Hrun. cbn [mbind res_bind]. do 2 eexists. split; [reflexivity|].
    destruct (Nat.eqb_spec k 0) as [Hk|Hk].
    + destruct (Hzero Hk) as [Hlm Hfp]. rewrite Hlm, Hfp.
      split; [exact Hwfp|]. split; [exact Htrp|]. split; [exact Hcfg|].
      split; [exact Hthr|]. split; [exact Hsp|]. split; [reflexivity|].
      split; [by rewrite Hms|]. discriminate.
    + destruct Hpos as (_ & Hsame & Hset & Hlen & Hposes); [lia|].
      pose proof (same_frames_wf _ _ Hsame Hwfp) as Hwf'.
      split; [exact Hwf'|]. split.
      { pose proof Hsame as (_ & Hh & Hc & _).
        pose proof Hwfp as (_ & _ & _ & Hcp).
        assert (Hc1 : local_map.counters (visual_odom_v2.local_maps pushed) <> 0).
        { subst pushed. cbn [visual_odom_v2.local_maps visual_odom_v2.with_loop_markers
                             visual_odom_v2.with_final_path visual_odom_v2.with_local_maps].
          destruct Hwf as (_ & _ & _ & Hc0). rewrite push_counters by exact Hc0. lia. }
        specialize (Hset 1).
        assert (Hs1 : local_map.slot_of_back (visual_odom_v2.local_maps pushed) 1
                      = local_map.head (visual_odom_v2.local_maps pushed))
          by (unfold local_map.slot_of_back; nat_cases; lia).
        rewrite Hs1 in Hset. unfold local_map.tr. rewrite Hc, Hh.
        destruct (Nat.eqb_spec (local_map.counters (visual_odom_v2.local_maps pushed)) 0);
          [contradiction|].
        rewrite Hset by lia. reflexivity. }
      split; [exact Hcfg|]. split; [exact Hthr|].
      split; [rewrite (stamps_kept k lp _ _ Hlen Hposes); exact Hsp|].
      split; [by rewrite Hps|]. split; [by rewrite Hms|]. discriminate.
  - do 2 eexists. split; [reflexivity|].
    split; [exact Hwfp|]. split; [exact Htrp|]. split; [reflexivity|].
    split; [reflexivity|]. split; [exact Hsp|]. split; [reflexivity|].
    split; [reflexivity|]. intros _. split; reflexivity.
Qed.

(** The three ways [mapping] returns. *)
Lemma mapping_cases (st st' : visual_odom_v2.t) cloud frame (time : ros_Time)
    (r : option Matrix4d) :
  local_map.wf (visual_odom_v2.local_maps st) ->
  visual_odom_v2.mapping cloud frame time st = Ok (r, st') ->
  (r = None /\ st' = st) \/
  (exists Tr head_tr,
     visual_odom_v2.update_current_frame frame st = Ok (ok Tr, st') /\
     local_map.tr (visual_odom_v2.local_maps st') = Ok head_tr /\
     visual_odom_v2.too_small st' Tr = true /\
     r = Some (mat_mul head_tr (to_eigen Tr))) \/
  (exists Tr st1 M',
     visual_odom_v2.update_current_frame frame st = Ok (ok Tr, st1) /\
     visual_odom_v2.too_small st1 Tr = false /\
     r = Some M' /\
     local_map.wf (visual_odom_v2.local_maps st') /\
     local_map.tr (visual_odom_v2.local_maps st') = Ok M' /\
     local_map.counters (visual_odom_v2.local_maps st')
     = Nat.min (local_map.counters (visual_odom_v2.local_maps st1) + 1) 20 /\
     visual_odom_v2.config st' = visual_odom_v2.config st1 /\
     visual_odom_v2.degenerate_threshold st' = visual_odom_v2.degenerate_threshold st1 /\
     stamp <$> poses (visual_odom_v2.final_path st')
     = (stamp <$> poses (visual_odom_v2.final_path st1)) ++ [time] /\
     (visual_odom_v2_config.enable_loop (visual_odom_v2.config st1) = false ->
      exists head_tr,
        local_map.tr (visual_odom_v2.local_maps st1) = Ok head_tr /\
        M' = mat_mul head_tr (to_eigen Tr) /\
        poses (visual_odom_v2.final_path st')
        = poses (visual_odom_v2.final_path st1)
          ++ [ {| stamp := time; pose := to_ros_pose M' |} ])).
Proof.
  intros Hwf Hmap. unfold visual_odom_v2.mapping in Hmap.
  destruct (visual_odom_v2.update_current_frame frame st)
    as [[[Tr|e] st1]|] eqn:Hupd; [| |discriminate]; cbn [mbind res_bind] in Hmap.
  2:{ left. injection Hmap as <- <-. split; [reflexivity|].
      destruct (update_current_frame_cases _ _ _ _ Hupd)
        as [[-> _]|[(_ & ? & _)|(_ & ? & ? & _ & ? & _)]];
        [reflexivity|discriminate|discriminate]. }
  pose proof (update_current_frame_keeps _ _ _ _ Hwf Hupd) as (Hwf1 & _).
  destruct (local_map.tr (visual_odom_v2.local_maps st1)) as [head_tr|] eqn:Htr;
    [|discriminate].
  cbn [mbind res_bind] in Hmap.
  destruct (visual_odom_v2.too_small st1 Tr) eqn:Hsmall.
  - injection Hmap as <- <-. right. left. exists Tr, head_tr. by repeat split.
  - right. right.
    destruct (promote_full st1 cloud frame time (mat_mul head_tr (to_eigen Tr)) Hwf1)
      as (M' & st2 & Hrun & Hwf2 & Htr2 & Hcfg & Hthr & Hst & _ & _ & Hoff).
    destruct (promote_effect st1 cloud frame time (mat_mul head_tr (to_eigen Tr)) Hwf1)
      as (M'' & st2' & Hrun' & _ & Hc2 & _).
    assert (E : Ok (Some M', st2) = Ok (r, st'))
      by (etransitivity; [symmetry; exact Hrun|exact Hmap]).
    assert (E' : Ok (Some M'', st2') = Ok (r, st'))
      by (etransitivity; [symmetry; exact Hrun'|exact Hmap]).
    injection E as <- <-. injection E' as _ ->.
    exists Tr, st1, M'. split; [reflexivity|]. split; [exact Hsmall|].
    split; [reflexivity|]. split; [exact Hwf2|]. split; [exact Htr2|].
    split; [exact Hc2|]. split; [exact Hcfg|]. split; [exact Hthr|].
    split; [exact Hst|]. intros Hen. destruct (Hoff Hen) as [-> Hposes].
    exists head_tr. by repeat split.
Qed.

End odometry_more.

Section odometry_extras.
Context `{Comm} `{!Loop} `{!Residual}.

(** X15: on a well-formed ring [mapping] never fails an assertion and never
    subscripts out of range: it returns, or it stops at a null sub-cloud while
    fusing the local map. *)
Theorem mapping_hits_no_assertion (st : visual_odom_v2.t) (cloud : PointCloud)
    (frame : feature_frame) (time : ros_Time) :
  local_map.wf (visual_odom_v2.local_maps st) ->
  safe (visual_odom_v2.mapping cloud frame time st).
Proof.
  intros Hwf. unfold visual_odom_v2.mapping.
  apply safe_bind; [by apply update_current_frame_safe|].
  intros [[Tr|e] st1] Hupd; [|exact I].
  pose proof (update_current_frame_keeps _ _ _ _ Hwf Hupd)
    as (Hwf1 & _ & _ & _ & _ & _ & Hne).
  destruct (tr_ok _ Hwf1 (Hne Tr eq_refl)) as [head_tr Htr].
  rewrite Htr. cbn [mbind res_bind].
  destruct (visual_odom_v2.too_small st1 Tr); [exact I|].
  destruct (promote_full st1 cloud frame time (mat_mul head_tr (to_eigen Tr)) Hwf1)
    as (M' & st' & Hrun & _).
  assert (Hs : safe (Ok (Some M', st'))) by exact I.
  rewrite <- Hrun in Hs. exact Hs.
Qed.

(** X16: what every step of [mapping] keeps.  The ring stays well formed, the
    configuration and the degeneracy threshold are not written, the ring count
    never decreases, and the trajectory grows by at most one pose. *)
Theorem mapping_keeps_invariants (st st' : visual_odom_v2.t) (cloud : PointCloud)
    (frame : feature_frame) (time : ros_Time) (r : option Matrix4d) :
  local_map.wf (visual_odom_v2.local_maps st) ->
  visual_odom_v2.mapping cloud frame time st = Ok (r, st') ->
  local_map.wf (visual_odom_v2.local_maps st') /\
  visual_odom_v2.config st' = visual_odom_v2.config st /\
  visual_odom_v2.degenerate_threshold st' = visual_odom_v2.degenerate_threshold st /\
  local_map.counters (visual_odom_v2.local_maps st)
  <= local_map.counters (visual_odom_v2.local_maps st') /\
  length (poses (visual_odom_v2.final_path st))
  <= length (poses (visual_odom_v2.final_path st')) /\
  length (poses (visual_odom_v2.final_path st'))
  <= S (length (poses (visual_odom_v2.final_path st))).
Proof.
  intros Hwf Hmap.
  destruct (mapping_cases _ _ _ _ _ _ Hwf Hmap)
    as [[_ ->]|[(Tr & head_tr & Hupd & _)|(Tr & st1 & M' & Hupd & _ & _ & Hwf' & _ & Hc
                                            & Hcfg & Hthr & Hst & _)]].
  - split; [exact Hwf|]. repeat split; lia.
  - pose proof (update_current_frame_keeps _ _ _ _ Hwf Hupd)
      as (Hwf1 & Hcfg & Hthr & Hp & _ & Hc & _).
    split; [exact Hwf1|]. rewrite Hp. repeat split; try assumption; lia.
  - pose proof (update_current_frame_keeps _ _ _ _ Hwf Hupd)
      as (Hwf1 & Hcfg1 & Hthr1 & Hp1 & _ & Hc1 & _).
    pose proof Hwf1 as (_ & _ & _ & Hle). unfold local_map.previous_frame_count in Hle.
    assert (Hlen : length (poses (visual_odom_v2.final_path st'))
                   = S (length (poses (visual_odom_v2.final_path st)))).
    { rewrite <- Hp1. rewrite <- (length_fmap stamp), Hst, length_app, length_fmap.
      simpl. lia. }
    split; [exact Hwf'|]. split; [congruence|]. split; [congruence|].
    rewrite Hc, Hlen. repeat split; lia.
Qed.

(** X17: whenever [mapping] promotes a frame (the trajectory grows), the pose
    it returns is the transform of the ring's new head -- with or without a
    loop correction. *)
Theorem promoted_pose_is_head (st st' : visual_odom_v2.t) (cloud : PointCloud)
    (frame : feature_frame) (time : ros_Time) (M : Matrix4d) :
  local_map.wf (visual_odom_v2.local_maps st) ->
  visual_odom_v2.mapping cloud frame time st = Ok (Some M, st') ->
  length (poses (visual_odom_v2.final_path st'))
  = S (length (poses (visual_odom_v2.final_path st))) ->
  local_map.tr (visual_odom_v2.local_maps st') = Ok M.
Proof.
  intros Hwf Hmap Hgrow.
  destruct (mapping_cases _ _ _ _ _ _ Hwf Hmap)
    as [[Hr _]|[(Tr & head_tr & Hupd & _)|(Tr & st1 & M' & _ & _ & Hr & _ & Htr & _)]].
  - discriminate Hr.
  - pose proof (update_current_frame_keeps _ _ _ _ Hwf Hupd) as (_ & _ & _ & Hp & _).
    rewrite Hp in Hgrow. lia.
  - injection Hr as ->. exact Htr.
Qed.

(** X18: the trajectory is append-only in its time stamps.  A step of
    [mapping] leaves the stamps as they are or appends the frame's time; a
    loop correction rewrites poses, never stamps.  With the loop module
    disabled the poses themselves are kept, and a promoted frame appends the
    pose of the returned matrix. *)
Theorem trajectory_stamps_append_only (st st' : visual_odom_v2.t)
    (cloud : PointCloud) (frame : feature_frame) (time : ros_Time)
    (r : option Matrix4d) :
  local_map.wf (visual_odom_v2.local_maps st) ->
  visual_odom_v2.mapping cloud frame time st = Ok (r, st') ->
  (stamp <$> poses (visual_odom_v2.final_path st')
   = stamp <$> poses (visual_odom_v2.final_path st) \/
   stamp <$> poses (visual_odom_v2.final_path st')
   = (stamp <$> poses (visual_odom_v2.final_path st)) ++ [time]) /\
  (visual_odom_v2_config.enable_loop (visual_odom_v2.config st) = false ->
   poses (visual_odom_v2.final_path st') = poses (visual_odom_v2.final_path st) \/
   exists M, r = Some M /\
     poses (visual_odom_v2.final_path st')
     = poses (visual_odom_v2.final_path st)
       ++ [ {| stamp := time; pose := to_ros_pose M |} ]).
Proof.
  intros Hwf Hmap.
  destruct (mapping_cases _ _ _ _ _ _ Hwf Hmap)
    as [[_ ->]|[(Tr & head_tr & Hupd & _)|(Tr & st1 & M' & Hupd & _ & Hr & _ & _ & _
                                            & _ & _ & Hst & Hoff)]].
  - split; [by left|]. intros _. by left.
  - pose proof (update_current_frame_keeps _ _ _ _ Hwf Hupd) as (_ & _ & _ & Hp & _).
    rewrite Hp. split; [by left|]. intros _. by left.
  - pose proof (update_current_frame_keeps _ _ _ _ Hwf Hupd)
      as (_ & Hcfg1 & _ & Hp1 & _).
    rewrite Hp1 in Hst. split; [by right|].
    intros Hen. rewrite <- Hcfg1 in Hen.
    destruct (Hoff Hen) as (head_tr & _ & _ & Hposes).
    right. exists M'. split; [exact Hr|]. rewrite Hposes, Hp1. reflexivity.
Qed.

Lemma edge_points_length (lp : loop_var) :
  length (visual_odom_v2.edge_points lp) = 2 * length (loop_var_loop lp).
Proof.
  unfold visual_odom_v2.edge_points.
  induction (loop_var_loop lp) as [|e l IH]; [reflexivity|].
  cbn [flat_map length app]. rewrite IH. lia.
Qed.

(** X19: the loop markers.  On a well-formed ring the adapter returns and
    stores the loop module's new state; when the module reports no change the
    marker is left alone, and after a correction the marker's point list is
    rebuilt from scratch with two points per loop edge. *)
Theorem loop_markers_rebuilt (st : visual_odom_v2.t) (cloud : PointCloud)
    (frame : feature_objects) (transform : Matrix4d) (k : nat) (lp : loop_var) :
  local_map.wf (visual_odom_v2.local_maps st) ->
  loop_var_loop_detection (visual_odom_v2.loop st) cloud frame transform = (k, lp) ->
  exists M' st',
    visual_odom_v2.loop_detection cloud frame transform st = Ok (M', st') /\
    visual_odom_v2.loop st' = lp /\
    (k = 0 -> visual_odom_v2.loop_markers st' = visual_odom_v2.loop_markers st) /\
    (0 < k ->
       marker_points (visual_odom_v2.loop_markers st') = visual_odom_v2.edge_points lp /\
       length (marker_points (visual_odom_v2.loop_markers st'))
       = 2 * length (loop_var_loop lp) /\
       marker_stamp (visual_odom_v2.loop_markers st')
       = marker_stamp (visual_odom_v2.loop_markers st)).
Proof.
  intros Hwf Hdet. unfold visual_odom_v2.loop_detection. rewrite Hdet.
  destruct (Nat.eqb_spec k 0) as [->|Hk].
  - do 2 eexists. split; [reflexivity|]. split; [reflexivity|].
    split; [reflexivity|lia].
  - destruct (set_from_loop_spec lp
                (seq 1 (local_map.counters (visual_odom_v2.local_maps st)))
                (visual_odom_v2.local_maps st) Hwf) as (lm' & Hrun & _).
    { intros i Hi. apply elem_of_seq in Hi. lia. }
    cbn [visual_odom_v2.with_loop visual_odom_v2.local_maps].
    unfold local_map.size. rewrite Hrun. cbn [mbind res_bind].
    do 2 eexists. split; [reflexivity|].
    cbn [visual_odom_v2.loop visual_odom_v2.loop_markers
         visual_odom_v2.with_loop_markers visual_odom_v2.with_final_path
         visual_odom_v2.with_local_maps visual_odom_v2.with_loop
         marker_points marker_stamp].
    split; [reflexivity|]. split; [lia|]. intros _.
    split; [reflexivity|]. split; [apply edge_points_length|reflexivity].
Qed.

(** X20: the first accepted frame.  On an empty well-formed ring, with
    positive thresholds, [mapping] stores the frame as the head at the
    identity, returns [Identity * to_eigen(0)], and writes neither the
    trajectory nor the configuration. *)
Theorem first_frame_bootstraps_ring (st : visual_odom_v2.t) (cloud : PointCloud)
    (frame : feature_frame) (time : ros_Time) :
  local_map.wf (visual_odom_v2.local_maps st) ->
  local_map.empty (visual_odom_v2.local_maps st) = true ->
  feature_ok (velodyne_feature frame) = true ->
  feature_ok (livox_feature frame) = true ->
  all_below (visual_odom_v2.config st) Transform_zero ->
  exists st',
    visual_odom_v2.mapping cloud frame time st
    = Ok (Some (mat_mul Identity (to_eigen Transform_zero)), st') /\
    local_map.wf (visual_odom_v2.local_maps st') /\
    local_map.counters (visual_odom_v2.local_maps st') = 1 /\
    back_entry (visual_odom_v2.local_maps st') 1 = Some (frame, Identity) /\
    visual_odom_v2.final_path st' = visual_odom_v2.final_path st /\
    visual_odom_v2.config st' = visual_odom_v2.config st.
Proof. exact (first_frame_effect st cloud frame time). Qed.


Lemma LM2_loop_no_correspondence (this_features : feature_frame)
    (adap_velodyne adap_livox : feature_adapter) (threshold : Q)
    (estimate : Transform) :
  top (Ab [ (velodyne_feature this_features, adap_velodyne);
            (livox_feature this_features, adap_livox) ] estimate) = 0 ->
  forall n k,
  LM2_loop this_features adap_velodyne adap_livox threshold n k estimate = estimate.
Proof.
  intros Htop [|n] k; [reflexivity|]. cbn [LM2_loop]. by rewrite Htop.
Qed.

(** X22: a frame without correspondences is not dropped.  On a non-empty ring,
    when the residual kernel finds no correspondence at the carried initial
    guess, [update_current_frame] accepts the frame, returns the carried guess
    as [Tr] and carries the same guess on. *)
Theorem no_correspondence_replays_guess (st : visual_odom_v2.t)
    (frame M : feature_frame) (lm : local_map.t) :
  local_map.empty (visual_odom_v2.local_maps st) = false ->
  feature_ok (velodyne_feature frame) = true ->
  feature_ok (livox_feature frame) = true ->
  local_map.get_local_map (visual_odom_v2.local_maps st) = Ok (M, lm) ->
  top (Ab [ (velodyne_feature frame, make_adapter (velodyne_feature M));
            (livox_feature frame, make_adapter (livox_feature M)) ]
          (visual_odom_v2.next_initial_guess st)) = 0 ->
  visual_odom_v2.update_current_frame frame st
  = Ok (ok (visual_odom_v2.next_initial_guess st),
        visual_odom_v2.with_next_initial_guess
          (visual_odom_v2.with_local_maps st lm)
          (visual_odom_v2.next_initial_guess st)).
Proof.
  intros He Hv Hl Hget Htop. unfold visual_odom_v2.update_current_frame.
  rewrite Hv, Hl, He, Hget. cbn [negb mbind res_bind].
  unfold LM2. rewrite LM2_loop_no_correspondence by exact Htop. reflexivity.
Qed.

End odometry_extras.

(** * The cache flag across [set] *)

Section cache_on_set.
Context `{Comm} `{!Loop} `{!Residual}.





End cache_on_set.


(** Reduce the field reads and record updates of an odometry state, and
    nothing else. *)
Ltac odom_fields :=
  unfold with_config_threshold,
    visual_odom_v2.with_local_maps, visual_odom_v2.with_next_initial_guess,
    visual_odom_v2.with_loop, visual_odom_v2.with_loop_markers,
    visual_odom_v2.with_final_path;
  cbn [visual_odom_v2.local_maps visual_odom_v2.next_initial_guess
       visual_odom_v2.degenerate_threshold visual_odom_v2.loop
       visual_odom_v2.config visual_odom_v2.loop_markers visual_odom_v2.final_path
       visual_odom_v2_config.degenerate_threshold
       visual_odom_v2_config.key_frame_distance_x
       visual_odom_v2_config.key_frame_distance_y
       visual_odom_v2_config.key_frame_distance_z
       visual_odom_v2_config.key_frame_distance_roll
       visual_odom_v2_config.key_frame_distance_pitch
       visual_odom_v2_config.key_frame_distance_yaw
       visual_odom_v2_config.loop_loss visual_odom_v2_config.loop_reset
       visual_odom_v2_config.loop_initial_load visual_odom_v2_config.enable_loop
       path_stamp poses marker_stamp marker_points mbind res_bind].

Section config_threshold.
Context `{Comm} `{!Loop} `{!Residual}.

Lemma update_current_frame_config_threshold (st : visual_odom_v2.t) (q : Q)
    (frame : feature_frame) :
  visual_odom_v2.update_current_frame frame (with_config_threshold st q)
  = match visual_odom_v2.update_current_frame frame st with
    | Ok (Mr, st1) => Ok (Mr, with_config_threshold st1 q)
    | Fault f => Fault f
    end.
Proof.
  unfold visual_odom_v2.update_current_frame. odom_fields.
  destruct (negb (feature_ok (velodyne_feature frame))); [reflexivity|].
  destruct (negb (feature_ok (livox_feature frame))); [reflexivity|].
  destruct (local_map.empty (visual_odom_v2.local_maps st)); [reflexivity|].
  destruct (local_map.get_local_map (visual_odom_v2.local_maps st)) as [[M lm]|];
    odom_fields; reflexivity.
Qed.

Lemma loop_detection_config_threshold (st : visual_odom_v2.t) (q : Q)
    (cloud : PointCloud) (frame : feature_objects) (M : Matrix4d) :
  visual_odom_v2.loop_detection cloud frame M (with_config_threshold st q)
  = match visual_odom_v2.loop_detection cloud frame M st with
    | Ok (M', st') => Ok (M', with_config_threshold st' q)
    | Fault f => Fault f
    end.
Proof.
  unfold visual_odom_v2.loop_detection. odom_fields.
  destruct (loop_var_loop_detection _ _ _ _) as [k lp].
  destruct (k =? 0); [reflexivity|].
  destruct (visual_odom_v2.set_from_loop _ _ _); odom_fields; reflexivity.
Qed.

(** X23: [config.degenerate_threshold] has no effect on the odometry.
    [mapping] on a state with another value in that field returns the same
    pose and the same state up to that field (or the same fault): the
    registration reads the member [degenerate_threshold] only. *)
Theorem config_degenerate_threshold_unused (st : visual_odom_v2.t) (q : Q)
    (cloud : PointCloud) (frame : feature_frame) (time : ros_Time) :
  match visual_odom_v2.mapping cloud frame time st with
  | Ok (r, st') =>
      visual_odom_v2.mapping cloud frame time (with_config_threshold st q)
      = Ok (r, with_config_threshold st' q)
  | Fault f =>
      visual_odom_v2.mapping cloud frame time (with_config_threshold st q) = Fault f
  end.
Proof.
  unfold visual_odom_v2.mapping. rewrite update_current_frame_config_threshold.
  destruct (visual_odom_v2.update_current_frame frame st) as [[[Tr|e] st1]|];
    cbn [mbind res_bind]; [|odom_fields; reflexivity|reflexivity].
  unfold visual_odom_v2.too_small. odom_fields.
  destruct (local_map.tr (visual_odom_v2.local_maps st1)) as [head_tr|];
    odom_fields; [|reflexivity].
  match goal with
  | |- context [if ?b then Ok (Some _, st1) else _] => destruct b
  end; [odom_fields; reflexivity|].
  destruct (visual_odom_v2_config.enable_loop (visual_odom_v2.config st1)) eqn:Hen;
    [|odom_fields; rewrite ?Hen; reflexivity].
  match goal with
  | |- context [visual_odom_v2.loop_detection ?c ?f ?m ?s] =>
      pose proof (loop_detection_config_threshold s q c f m) as HW;
      destruct (visual_odom_v2.loop_detection c f m s) as [[M' st']|]
  end; revert HW; odom_fields; rewrite ?Hen; intros ->; odom_fields;
    rewrite ?Hen; reflexivity.
Qed.

End config_threshold.

(** * The mapping worker *)

Section worker.
Context `{Comm} `{!Loop} `{!Residual}.

(** X24: a batch processed without a stop request drives the odometry exactly
    as the frames fed one by one to [mapping] do: it ends in the same state,
    or stops at the same fault. *)
Theorem worker_batch_follows_mapping (self : mapping_thread.t)
    (should_stop : nat -> bool) (pq : list (synced_message * feature_frame)) :
  (forall j, should_stop j = false) ->
  forall (k : nat) (odom : visual_odom_v2.t),
  match visual_odom_v2.mapping_run
          (map (fun item => (velodyne (fst item), snd item, time (fst item))) pq)
          odom with
  | Ok odom' =>
      exists outs, mapping_worker.batch self should_stop k pq odom = Ok (outs, odom')
  | Fault f => mapping_worker.batch self should_stop k pq odom = Fault f
  end.
Proof.
  intros Hrun. induction pq as [|[msg frame] rest IH]; intros k odom.
  - cbn. by eexists.
  - cbn [map visual_odom_v2.mapping_run mapping_worker.batch fst snd].
    rewrite Hrun. unfold mapping_worker.step. cbn [fst snd].
    destruct (visual_odom_v2.mapping (velodyne msg) frame (time msg) odom)
      as [[r odom1]|f]; cbn [mbind res_bind]; [|reflexivity].
    specialize (IH (S k) odom1).
    destruct (visual_odom_v2.mapping_run _ odom1) as [odom'|f].
    + destruct IH as [outs IH]. destruct r as [M|]; cbn [mbind res_bind];
        rewrite IH; cbn [mbind res_bind]; by eexists.
    + destruct r as [M|]; cbn [mbind res_bind]; rewrite IH; reflexivity.
Qed.



End worker.

(** A concrete instance: a second frame on a ring of one keyframe. *)
Lemma mapping_hits_no_assertion_witness :
  let st := Toy.odom1 Toy.loop_fixed 1 Transform_zero in
  local_map.wf (visual_odom_v2.local_maps st) /\
  safe (@visual_odom_v2.mapping Toy.eigen Toy.comm Toy.loop_fixed Toy.residual_one
          (Toy.cloud_of 3 1%Q) Toy.good_frame 1%Q st).
Proof.
  intros st.
  assert (Hwf : local_map.wf (visual_odom_v2.local_maps st))
    by (apply push_wf, init_wf).
  split; [exact Hwf|].
  apply (@mapping_hits_no_assertion Toy.eigen Toy.comm Toy.loop_fixed Toy.residual_one
           st (Toy.cloud_of 3 1%Q) Toy.good_frame 1%Q Hwf).
Defined.

(** A concrete instance: a promoted second frame. *)
Lemma mapping_keeps_invariants_witness :
  let st := Toy.odom1 Toy.loop_fixed 1 (mkTransform 1 0 0 0 0 0) in
  exists r st',
    @visual_odom_v2.mapping Toy.eigen Toy.comm Toy.loop_fixed Toy.residual_none
      (Toy.cloud_of 3 1%Q) (Toy.frame_of 100 2%Q) 1%Q st = Ok (r, st') /\
    local_map.wf (visual_odom_v2.local_maps st') /\
    visual_odom_v2.config st' = visual_odom_v2.config st.
Proof.
  intros st.
  assert (Hwf : local_map.wf (visual_odom_v2.local_maps st))
    by (apply push_wf, init_wf).
  eassert (Hmap : @visual_odom_v2.mapping Toy.eigen Toy.comm Toy.loop_fixed
                    Toy.residual_none (Toy.cloud_of 3 1%Q) (Toy.frame_of 100 2%Q)
                    1%Q st = Ok (_, _)) by (vm_compute; reflexivity).
  destruct (@mapping_keeps_invariants Toy.eigen Toy.comm Toy.loop_fixed
              Toy.residual_none st _ _ _ _ _ Hwf Hmap) as (Hwf' & Hcfg & _).
  do 2 eexists. split; [exact Hmap|]. split; [exact Hwf'|exact Hcfg].
Defined.

(** A concrete instance: a promoted second frame corrected by the loop
    module. *)
Lemma promoted_pose_is_head_witness :
  let st := Toy.odom1 Toy.loop_fixed 1 (mkTransform 1 0 0 0 0 0) in
  exists M st',
    @visual_odom_v2.mapping Toy.eigen Toy.comm Toy.loop_fixed Toy.residual_none
      (Toy.cloud_of 3 1%Q) (Toy.frame_of 100 2%Q) 1%Q st = Ok (Some M, st') /\
    length (poses (visual_odom_v2.final_path st'))
    = S (length (poses (visual_odom_v2.final_path st))) /\
    local_map.tr (visual_odom_v2.local_maps st') = Ok M.
Proof.
  intros st.
  assert (Hwf : local_map.wf (visual_odom_v2.local_maps st))
    by (apply push_wf, init_wf).
  eassert (Hmap : @visual_odom_v2.mapping Toy.eigen Toy.comm Toy.loop_fixed
                    Toy.residual_none (Toy.cloud_of 3 1%Q) (Toy.frame_of 100 2%Q)
                    1%Q st = Ok (Some _, _)) by (vm_compute; reflexivity).
  do 2 eexists. split; [exact Hmap|]. split; [reflexivity|].
  apply (@promoted_pose_is_head Toy.eigen Toy.comm Toy.loop_fixed Toy.residual_none
           st _ _ _ _ _ Hwf Hmap eq_refl).
Defined.

(** A concrete instance: a promoted second frame, loop module never
    correcting. *)
Lemma trajectory_stamps_append_only_witness :
  let st := Toy.odom1 Toy.loop_never tt (mkTransform 1 0 0 0 0 0) in
  exists r st',
    @visual_odom_v2.mapping Toy.eigen Toy.comm Toy.loop_never Toy.residual_none
      (Toy.cloud_of 3 1%Q) (Toy.frame_of 100 2%Q) 1%Q st = Ok (r, st') /\
    (stamp <$> poses (visual_odom_v2.final_path st')
     = stamp <$> poses (visual_odom_v2.final_path st) \/
     stamp <$> poses (visual_odom_v2.final_path st')
     = (stamp <$> poses (visual_odom_v2.final_path st)) ++ [1%Q]).
Proof.
  intros st.
  assert (Hwf : local_map.wf (visual_odom_v2.local_maps st))
    by (apply push_wf, init_wf).
  eassert (Hmap : @visual_odom_v2.mapping Toy.eigen Toy.comm Toy.loop_never
                    Toy.residual_none (Toy.cloud_of 3 1%Q) (Toy.frame_of 100 2%Q)
                    1%Q st = Ok (_, _)) by (vm_compute; reflexivity).
  destruct (@trajectory_stamps_append_only Toy.eigen Toy.comm Toy.loop_never
              Toy.residual_none st _ _ _ _ _ Hwf Hmap) as [Hst _].
  do 2 eexists. split; [exact Hmap|exact Hst].
Defined.

(** A concrete instance: a correction with one loop edge. *)
Lemma loop_markers_rebuilt_witness :
  let st := Toy.odom_loop in
  local_map.wf (visual_odom_v2.local_maps st) /\
  exists M' st',
    @visual_odom_v2.loop_detection Toy.eigen Toy.loop_fixed
      (Toy.cloud_of 3 1%Q) (velodyne_feature Toy.good_frame) 9%Z st = Ok (M', st') /\
    length (marker_points (visual_odom_v2.loop_markers st')) = 2.
Proof.
  intros st.
  assert (Hwf : local_map.wf (visual_odom_v2.local_maps st))
    by (apply push_wf, push_wf, init_wf).
  split; [exact Hwf|].
  destruct (@loop_markers_rebuilt Toy.eigen Toy.loop_fixed st
              (Toy.cloud_of 3 1%Q) (velodyne_feature Toy.good_frame) 9%Z 1 1
              Hwf eq_refl) as (M' & st' & Hrun & _ & _ & Hpos).
  destruct (Hpos (Nat.lt_0_succ 0)) as (_ & Hlen & _).
  exists M', st'. split; [exact Hrun|exact Hlen].
Defined.

(** A concrete instance: the first frame of the default odometry. *)
Lemma first_frame_bootstraps_ring_witness :
  let st := Toy.odom0 Toy.loop_never tt in
  local_map.wf (visual_odom_v2.local_maps st) /\
  all_below (visual_odom_v2.config st) Transform_zero /\
  exists st',
    @visual_odom_v2.mapping Toy.eigen Toy.comm Toy.loop_never Toy.residual_one
      (Toy.cloud_of 3 1%Q) Toy.good_frame 0%Q st = Ok (Some 0%Z, st') /\
    local_map.counters (visual_odom_v2.local_maps st') = 1 /\
    visual_odom_v2.final_path st' = visual_odom_v2.final_path st.
Proof.
  intros st.
  assert (Hwf : local_map.wf (visual_odom_v2.local_maps st)) by apply init_wf.
  assert (Hpos : all_below (visual_odom_v2.config st) Transform_zero)
    by (repeat split; reflexivity).
  split; [exact Hwf|]. split; [exact Hpos|].
  destruct (@first_frame_bootstraps_ring Toy.eigen Toy.comm Toy.loop_never
              Toy.residual_one st (Toy.cloud_of 3 1%Q) Toy.good_frame 0%Q
              Hwf eq_refl eq_refl eq_refl Hpos)
    as (st' & Hrun & _ & Hc & _ & Hp & _).
  exists st'. split; [exact Hrun|]. split; [exact Hc|exact Hp].
Defined.


(** A concrete instance: a kernel without correspondences and a carried guess
    of one unit along x. *)
Lemma no_correspondence_replays_guess_witness :
  let guess := mkTransform 1 0 0 0 0 0 in
  let st := Toy.odom1 Toy.loop_never tt guess in
  exists st1,
    @visual_odom_v2.update_current_frame Toy.eigen Toy.comm Toy.loop_never
      Toy.residual_none Toy.good_frame st = Ok (ok guess, st1) /\
    visual_odom_v2.next_initial_guess st1 = guess.
Proof.
  intros guess st.
  eassert (Hget : @local_map.get_local_map Toy.eigen Toy.comm
                    (visual_odom_v2.local_maps st) = Ok (_, _))
    by (vm_compute; reflexivity).
  eexists. split;
    [apply (@no_correspondence_replays_guess Toy.eigen Toy.comm Toy.loop_never
              Toy.residual_none st Toy.good_frame _ _ eq_refl eq_refl eq_refl Hget
              eq_refl)
    |reflexivity].
Defined.

(** A concrete instance: a batch of two frames. *)
Lemma worker_batch_follows_mapping_witness :
  let self := {| mapping_thread.livox_transform := 0%Z : @Matrix4d Toy.eigen;
                 mapping_thread.degenerate_threshold := 10%Q |} in
  let msg := {| time := 0%Q; velodyne := Toy.cloud_of 3 1%Q;
                livox := Toy.cloud_of 3 1%Q |} in
  let pq := [(msg, Toy.good_frame); (msg, Toy.poor_frame)] in
  (forall j : nat, (fun _ => false) j = false) /\
  exists outs odom',
    @mapping_worker.batch Toy.eigen Toy.comm Toy.loop_never Toy.residual_one
      self (fun _ => false) 0 pq (Toy.odom0 Toy.loop_never tt) = Ok (outs, odom') /\
    @visual_odom_v2.mapping_run Toy.eigen Toy.comm Toy.loop_never Toy.residual_one
      (map (fun item => (velodyne (fst item), snd item, time (fst item))) pq)
      (Toy.odom0 Toy.loop_never tt) = Ok odom'.
Proof.
  intros self msg pq. split; [reflexivity|].
  pose proof (@worker_batch_follows_mapping Toy.eigen Toy.comm Toy.loop_never
                Toy.residual_one self (fun _ => false) pq (fun _ => eq_refl) 0
                (Toy.odom0 Toy.loop_never tt)) as Hb.
  eassert (Hrun : @visual_odom_v2.mapping_run Toy.eigen Toy.comm Toy.loop_never
                    Toy.residual_one
                    (map (fun item => (velodyne (fst item), snd item, time (fst item))) pq)
                    (Toy.odom0 Toy.loop_never tt) = Ok _)
    by (vm_compute; reflexivity).
  rewrite Hrun in Hb. destruct Hb as [outs Hb].
  exists outs. eexists. split; [exact Hb|exact Hrun].
Defined.

